(** * Cash-flow projection of an amortizing loan ([loancf.py])

    A shallow embedding of [loancf.py] and the properties of its
    cash-flow table, pricing function and yield solver.

    Numbers.  The program computes on Python floats and numpy float64
    arrays.  They are modelled by [float]: an exact rational, or one of
    the IEEE special values plus infinity, minus infinity and NaN.  The
    special values follow IEEE 754 (a finite non-zero value over zero is
    an infinity, zero over zero is NaN, NaN is absorbing); rounding, the
    overflow of array operations to an infinity, underflow and the sign of
    zero are outside the model.  The properties below are therefore about
    shapes, exceptions and values that are copied or computed by the same
    operations, not about identities of real arithmetic.

    Errors.  Python exceptions are modelled by the [result] monad. *)

From Stdlib Require Import ZArith QArith Qpower Qabs String List Bool Lia Lqa.
From Stdlib Require SpecFloat.
Import ListNotations.

Set Implicit Arguments.

(** ** Exceptions *)

Inductive exn : Type :=
| ValueError          (* numpy shape mismatch, negative dimension, pandas column lengths, root not bracketed *)
| ZeroDivisionError   (* Python scalar: 0.0 ** negative *)
| OverflowError       (* Python scalar: the result of ** is out of range *)
| IndexError          (* vec[-1] on an empty array *)
| RuntimeError.       (* solver did not converge *)

Inductive result (A : Type) : Type :=
| Ok (a : A)
| Err (e : exn).

Arguments Ok {A} a.
Arguments Err {A} e.

Definition bind {A B : Type} (m : result A) (k : A -> result B) : result B :=
  match m with
  | Ok a => k a
  | Err e => Err e
  end.

Notation "x <- m ;; k" := (bind m (fun x => k))
  (at level 61, m at next level, right associativity).

Definition is_ok {A : Type} (m : result A) : bool :=
  match m with Ok _ => true | Err _ => false end.

(** ** Floating-point values *)

Inductive float : Type :=
| Fin (q : Q)
| PInf
| NInf
| NaN.

Declare Scope float_scope.
Delimit Scope float_scope with float.
Bind Scope float_scope with float.

Definition Qsign (q : Q) : comparison := Qcompare q 0.

Definition inf_of_sign (c : comparison) : float :=
  match c with
  | Gt => PInf
  | Lt => NInf
  | Eq => NaN
  end.

Definition flip (c : comparison) : comparison := CompOpp c.

Definition fneg (x : float) : float :=
  match x with
  | Fin q => Fin (- q)
  | PInf => NInf
  | NInf => PInf
  | NaN => NaN
  end.

Definition fadd (x y : float) : float :=
  match x, y with
  | NaN, _ | _, NaN => NaN
  | Fin a, Fin b => Fin (a + b)
  | PInf, NInf | NInf, PInf => NaN
  | PInf, _ | _, PInf => PInf
  | NInf, _ | _, NInf => NInf
  end.

Definition fsub (x y : float) : float := fadd x (fneg y).

Definition fmul (x y : float) : float :=
  match x, y with
  | NaN, _ | _, NaN => NaN
  | Fin a, Fin b => Fin (a * b)
  | PInf, Fin b | Fin b, PInf => inf_of_sign (Qsign b)
  | NInf, Fin b | Fin b, NInf => inf_of_sign (flip (Qsign b))
  | PInf, PInf | NInf, NInf => PInf
  | PInf, NInf | NInf, PInf => NInf
  end.

(** numpy's true division: a zero divisor gives an infinity or NaN (with a
    warning), never an exception. *)
Definition fdiv (x y : float) : float :=
  match x, y with
  | NaN, _ | _, NaN => NaN
  | Fin a, Fin b =>
      match Qsign b with
      | Eq => inf_of_sign (Qsign a)
      | _ => Fin (a / b)
      end
  | Fin _, PInf | Fin _, NInf => Fin 0
  | PInf, Fin b =>
      match Qsign b with Lt => NInf | _ => PInf end
  | NInf, Fin b =>
      match Qsign b with Lt => PInf | _ => NInf end
  | PInf, PInf | PInf, NInf | NInf, PInf | NInf, NInf => NaN
  end.

(** [x ** k] for an integer exponent, as numpy's [power] computes it. *)
Definition fpow (x : float) (k : Z) : float :=
  match k with
  | Z0 => Fin 1
  | Zpos _ =>
      match x with
      | Fin q => Fin (q ^ k)
      | PInf => PInf
      | NInf => if Z.even k then PInf else NInf
      | NaN => NaN
      end
  | Zneg _ =>
      match x with
      | Fin q =>
          match Qsign q with
          | Eq => PInf
          | _ => Fin (q ^ k)
          end
      | PInf | NInf => Fin 0
      | NaN => NaN
      end
  end.

(** The magnitude from which a binary64 result is out of range: halfway
    between the largest finite value, [2^1024 - 2^971], and [2^1024]. *)
Definition overflow_threshold : Q := inject_Z (2 ^ 1024 - 2 ^ 970).

Definition overflows (x : float) : bool :=
  match x with
  | Fin q => Qle_bool overflow_threshold (Qabs q)
  | _ => false
  end.

(** Python's scalar [x ** k] (float_pow): as [fpow], but a zero base with a
    negative exponent raises [ZeroDivisionError], and a finite base whose
    power is out of range raises [OverflowError] where numpy gives an
    infinity.  An infinite or NaN base does not raise. *)
Definition py_pow (x : float) (k : Z) : result float :=
  match x with
  | Fin q =>
      match k, Qsign q with
      | Zneg _, Eq => Err ZeroDivisionError
      | _, _ => if overflows (fpow x k) then Err OverflowError else Ok (fpow x k)
      end
  | _ => Ok (fpow x k)
  end.

(** [np.maximum]: NaN propagates. *)
Definition fmaximum (x y : float) : float :=
  match x, y with
  | NaN, _ | _, NaN => NaN
  | PInf, _ | _, PInf => PInf
  | NInf, z | z, NInf => z
  | Fin a, Fin b => if Qle_bool a b then Fin b else Fin a
  end.

(** IEEE comparison [x == y]: NaN is equal to nothing. *)
Definition ieee_eqb (x y : float) : bool :=
  match x, y with
  | Fin a, Fin b => Qeq_bool a b
  | PInf, PInf | NInf, NInf => true
  | _, _ => false
  end.

Definition is_finite (x : float) : bool :=
  match x with Fin _ => true | _ => false end.

Definition is_nan (x : float) : bool :=
  match x with NaN => true | _ => false end.

Definition of_int (z : Z) : float := Fin (inject_Z z).

Notation "x + y" := (fadd x y) : float_scope.
Notation "x - y" := (fsub x y) : float_scope.
Notation "x * y" := (fmul x y) : float_scope.
Notation "x / y" := (fdiv x y) : float_scope.
Notation "- x" := (fneg x) : float_scope.

(** Equality of values up to the representation of the rational. *)
Definition feq (x y : float) : Prop :=
  match x, y with
  | Fin a, Fin b => a == b
  | PInf, PInf | NInf, NInf | NaN, NaN => True
  | _, _ => False
  end.

(** The canonical representative, for displaying computed tables. *)
Definition fred (x : float) : float :=
  match x with
  | Fin q => Fin (Qred q)
  | _ => x
  end.

(** ** Utility functions *)

(** [np.isclose(b, 0, rtol=0, atol)]: [|b - 0| <= atol + 0 * |0|] for a
    finite [b]; an infinity or NaN is close to no finite value. *)
Definition isclose0 (b : float) (atol : Q) : bool :=
  match b with
  | Fin q => Qle_bool (Qabs (q - 0)) (atol + 0 * Qabs 0)
  | _ => false
  end.

Definition atol_safedivide : Q := 3 # 100000000000.

Definition safedivide (a b : float) : float :=
  if isclose0 b atol_safedivide then Fin 0 else (a / b)%float.

(** ** numpy arrays

    A one-dimensional float64 array is a list of values.  A scenario field
    with a scalar default ([refund_smm], [aggMDR_timingV]) holds a scalar
    or an array. *)

Inductive ndarray : Type :=
| Scalar (x : float)
| Array (l : list float).

Fixpoint zip_with (f : float -> float -> float) (a b : list float) : list float :=
  match a, b with
  | x :: a', y :: b' => f x y :: zip_with f a' b'
  | _, _ => []
  end.

(** Elementwise binary operation on two arrays with numpy's broadcasting:
    equal shapes, or one of the two of length one. *)
Definition broadcast (f : float -> float -> float) (a b : list float)
  : result (list float) :=
  if Nat.eqb (length a) (length b) then Ok (zip_with f a b)
  else match a, b with
       | [x], _ => Ok (map (f x) b)
       | _, [y] => Ok (map (fun x => f x y) a)
       | _, _ => Err ValueError
       end.

(** In-place [a op= b]: the broadcast shape has to be the shape of [a]. *)
Definition broadcast_inplace (f : float -> float -> float) (a b : list float)
  : result (list float) :=
  if Nat.eqb (length a) (length b) then Ok (zip_with f a b)
  else match b with
       | [y] => Ok (map (fun x => f x y) a)
       | _ => Err ValueError
       end.

(** array op scalar, scalar op array *)
Definition arr_sc (f : float -> float -> float) (a : list float) (y : float) : list float :=
  map (fun x => f x y) a.

Definition sc_arr (f : float -> float -> float) (x : float) (b : list float) : list float :=
  map (f x) b.

(** array op (scalar or array), (scalar or array) op array, scalar op (scalar or array) *)
Definition arr_nd (f : float -> float -> float) (a : list float) (b : ndarray)
  : result (list float) :=
  match b with
  | Scalar y => Ok (arr_sc f a y)
  | Array l => broadcast f a l
  end.

Definition nd_arr (f : float -> float -> float) (a : ndarray) (b : list float)
  : result (list float) :=
  match a with
  | Scalar x => Ok (sc_arr f x b)
  | Array l => broadcast f l b
  end.

Definition sc_nd (f : float -> float -> float) (x : float) (b : ndarray) : ndarray :=
  match b with
  | Scalar y => Scalar (f x y)
  | Array l => Array (sc_arr f x l)
  end.

(** [np.arange(lo, hi)] *)
Definition arange (lo hi : Z) : list Z :=
  map (fun i => (lo + Z.of_nat i)%Z) (seq 0 (Z.to_nat (hi - lo))).

(** [np.ones(n)], [np.zeros(n)]: a negative dimension is refused. *)
Definition full (x : float) (n : Z) : result (list float) :=
  if (n <? 0)%Z then Err ValueError else Ok (repeat x (Z.to_nat n)).

Definition ones : Z -> result (list float) := full (Fin 1).
Definition zeros : Z -> result (list float) := full (Fin 0).

(** [np.cumprod], [np.cumsum]: running product and sum, left to right. *)
Fixpoint accumulate (f : float -> float -> float) (acc : float) (l : list float)
  : list float :=
  match l with
  | [] => []
  | x :: t => let a := f acc x in a :: accumulate f a t
  end.

Definition cumulate (f : float -> float -> float) (l : list float) : list float :=
  match l with
  | [] => []
  | x :: t => x :: accumulate f x t
  end.

Definition cumprod : list float -> list float := cumulate fmul.
Definition cumsum : list float -> list float := cumulate fadd.

(** [np.sum] *)
Definition sum (l : list float) : float := fold_left fadd l (Fin 0).

(** [np.insert(v, 0, x)], [v[:-1]], [v[1:]] *)
Definition insert0 (v : list float) (x : float) : list float := x :: v.
Definition but_last (v : list float) : list float := removelast v.
Definition from1 (v : list float) : list float := tl v.

(** [np.maximum(x, v)] for a scalar [x] *)
Definition maximum (x : float) (v : list float) : list float := map (fmaximum x) v.

(** [calc]: weighted-average life of a cash-flow vector. *)
Definition calc (v : list float) : float :=
  let weights := map (fun k => (of_int k / Fin 12)%float)
                     (arange 1 (Z.of_nat (length v) + 1)) in
  let numerator := sum (zip_with fmul (maximum (Fin 0) v) weights) in
  let denominator := sum (maximum (Fin 0) v) in
  safedivide numerator denominator.

(** [shift_elements(arr, num, fill_value)] *)
Definition shift_elements (arr : list float) (num : Z) (fill_value : float)
  : list float :=
  let n := length arr in
  if (0 <? num)%Z then
    repeat fill_value (Nat.min (Z.to_nat num) n) ++ firstn (n - Z.to_nat num) arr
  else if (num <? 0)%Z then
    skipn (Z.to_nat (- num)) arr ++ repeat fill_value (Nat.min (Z.to_nat (- num)) n)
  else arr.

(** [pad_zeros(vec, n, pad_value)]: the padding value is a number or the
    string ['last']. *)
Inductive pad : Type :=
| PadWith (x : float)
| PadLast.

Definition pad_zeros (vec : list float) (n : Z) (pad_value : pad)
  : result (list float) :=
  if (Z.of_nat (length vec) <? n)%Z then
    pad_val <- match pad_value with
               | PadLast =>
                   match vec with
                   | [] => Err IndexError
                   | _ => Ok (last vec NaN)
                   end
               | PadWith x => Ok x
               end ;;
    Ok (vec ++ repeat pad_val (Z.to_nat (n - Z.of_nat (length vec))))
  else Ok vec.

(** ** numpy_financial.pmt

    Library function, from its definition in numpy-financial 1.0 with
    [fv = 0] and [when = 'end'] (that is, 0). *)
Definition pmt (rate : float) (nper : Z) (pv : float) : float :=
  let fv := Fin 0 in
  let when := Fin 0 in
  let temp := fpow (Fin 1 + rate) nper in
  let mask := ieee_eqb rate (Fin 0) in
  let masked_rate := if mask then Fin 1 else rate in
  let fact := if mask then of_int nper
              else ((Fin 1 + masked_rate * when) * (temp - Fin 1) / masked_rate)%float in
  (- ((fv + pv * temp) / fact))%float.

(** ** Data classes *)

Record Scenario : Type := mkScenario {
  smmV : list float;
  dqV : list float;
  mdrV : list float;
  sevV : list float;
  recovery_lag : Z;
  refund_smm : ndarray;
  refund_premium : float;
  aggMDR : float;
  aggMDR_timingV : ndarray;
  compIntHC : float;
  servicing_fee : float;
  is_advance : bool;
  servicing_fee_method : string
}.

Record Input : Type := mkInput {
  yieldValue : float;
  fullpx : float
}.

Record Loan : Type := mkLoan {
  wac : float;
  wam : Z;
  pv : float
}.

(** The pandas table returned by [getCashflow], one field per column. *)
Record DataFrame : Type := mkDataFrame {
  Months : list Z;
  Prin : list float;
  SchedPrin : list float;
  PrepayPrin : list float;
  RefundPrin : list float;
  Default : list float;
  Writedown : list float;
  Recovery : list float;
  Interest : list float;
  ServicingFee : list float;
  BeginningBalance : list float;
  Balance : list float;
  CFL : list float
}.

(** [pd.DataFrame({...})]: the columns must have one length. *)
Definition same_length (n : nat) (cols : list (list float)) : bool :=
  forallb (fun c => Nat.eqb (length c) n) cols.

Definition columns (df : DataFrame) : list (list float) :=
  [Prin df; SchedPrin df; PrepayPrin df; RefundPrin df; Default df;
   Writedown df; Recovery df; Interest df; ServicingFee df;
   BeginningBalance df; Balance df; CFL df].

Definition make_DataFrame (df : DataFrame) : result DataFrame :=
  if same_length (length (Months df)) (columns df) then Ok df else Err ValueError.

(** ** Loan.getCashflow

    [Locals] records the local variables of [getCashflow] that the
    properties below speak about, as they stand when the table is built;
    [table] holds the columns handed to [pd.DataFrame]. *)

Record Locals : Type := mkLocals {
  rate : float;
  X : float;
  balancesV : list float;
  interestsV : list float;
  principalsV : list float;
  paydownV : list float;
  p_survV : list float;
  default_aggMDRV : ndarray;
  scaled_default_aggMDRV : list float;
  cum_scaled_default_aggMDRV : list float;
  survivorshipV : list float;
  sev_paddedV : list float;
  b_totalBalV : list float;
  totalBalV : list float;
  servicingFee_rate : float;
  servicingFee_begV : list float;
  servicingFee_avgV : list float;
  table : DataFrame
}.

Local Open Scope float_scope.
Local Open Scope string_scope.

Definition getCashflow_locals (self : Loan) (scenario : Scenario) : result Locals :=
  let wac := wac self in
  let wam := wam self in
  let pv := pv self in
  let smmV := smmV scenario in
  let dqV := dqV scenario in
  let mdrV := mdrV scenario in
  let sevV := sevV scenario in
  let recovery_lag := recovery_lag scenario in
  let period_with_lag := (wam + recovery_lag)%Z in
  let refund_smm := refund_smm scenario in
  dqMdrV <- broadcast fadd dqV mdrV ;;
  (* Amortization *)
  let rate := wac / Fin 12 in
  let X := - pmt rate wam pv in
  let monthsV := arange 1 (wam + 1 + recovery_lag) in
  let exponentsV := map (fun k => (- (wam - k))%Z) (arange 0 (wam + 1)) in
  let numeratorV := sc_arr fmul pv (sc_arr fsub (Fin 1) (map (fpow (Fin 1 + rate)) exponentsV)) in
  final_pow <- py_pow (Fin 1 + rate) (- wam) ;;
  let balancesV := arr_sc fdiv numeratorV (Fin 1 - final_pow) in
  let interestsV := arr_sc fmul (but_last balancesV) rate in
  let principalsV := sc_arr fsub X interestsV in
  paydownV <- broadcast fdiv principalsV (but_last balancesV) ;;
  (* Survivorship *)
  onesV <- ones wam ;;
  s1 <- broadcast fsub onesV smmV ;;
  s2 <- arr_nd fsub s1 refund_smm ;;
  s3 <- broadcast fsub s2 mdrV ;;
  let p_survV := cumprod s3 in
  let default_aggMDRV := sc_nd fmul (pv * aggMDR scenario) (aggMDR_timingV scenario) in
  dqPrin_aggMDRV <- arr_nd fmul paydownV default_aggMDRV ;;
  denomV <- broadcast fmul (but_last balancesV) p_survV ;;
  scaled_default_aggMDRV <- nd_arr fdiv default_aggMDRV denomV ;;
  let cum_scaled_default_aggMDRV := cumsum scaled_default_aggMDRV in
  s4 <- broadcast fmul p_survV (sc_arr fsub (Fin 1) cum_scaled_default_aggMDRV) ;;
  let survivorshipV := insert0 s4 (Fin 1) in
  actualBalanceV0 <- broadcast fmul survivorshipV balancesV ;;
  let b_balanceV := but_last actualBalanceV0 in
  let actualBalanceV := from1 actualBalanceV0 in
  balanceDiffV <- broadcast fsub b_balanceV actualBalanceV ;;
  (* Scheduled, prepayment, default, total principals *)
  survPrinV <- broadcast fmul (but_last survivorshipV) principalsV ;;
  dqPrinV <- (if is_advance scenario then zeros wam
              else (d1 <- broadcast fmul survPrinV dqMdrV ;;
                    broadcast fadd d1 dqPrin_aggMDRV)) ;;
  schedPrinV <- broadcast fsub survPrinV dqPrinV ;;
  survBalV <- broadcast fmul (but_last survivorshipV) (from1 balancesV) ;;
  prepayPrinV0 <- broadcast fmul survBalV smmV ;;
  d2 <- broadcast fmul b_balanceV mdrV ;;
  defaultV <- arr_nd fadd d2 default_aggMDRV ;;
  (* Losses, recoveries, and writedowns *)
  let writedownV0 := defaultV in
  recoveryV0 <- broadcast fsub defaultV writedownV0 ;;
  let recoveryV1 := shift_elements recoveryV0 recovery_lag (Fin 0) in
  w1 <- pad_zeros writedownV0 period_with_lag (PadWith (Fin 0)) ;;
  let writedownV := shift_elements w1 recovery_lag (Fin 0) in
  sev_paddedV <- pad_zeros sevV period_with_lag PadLast ;;
  recoveryV <- broadcast fmul writedownV (sc_arr fsub (Fin 1) sev_paddedV) ;;
  refundPrinV <- arr_nd fmul survBalV refund_smm ;;
  t1 <- pad_zeros schedPrinV period_with_lag (PadWith (Fin 0)) ;;
  t2 <- pad_zeros prepayPrinV0 period_with_lag (PadWith (Fin 0)) ;;
  t3 <- broadcast fadd t1 t2 ;;
  totalPrinV <- broadcast fadd t3 recoveryV ;;
  let compIntV := arr_sc fmul (arr_sc fmul prepayPrinV0 rate) (compIntHC scenario) in
  let refundIntV := arr_sc fmul refundPrinV rate in
  prepayPrinV <- broadcast fadd prepayPrinV0 refundPrinV ;;
  (* Servicing fee *)
  b1 <- pad_zeros defaultV period_with_lag (PadWith (Fin 0)) ;;
  b2 <- broadcast fsub b1 writedownV ;;
  let defaultBalV := maximum (Fin 0) (cumsum b2) in
  b3 <- pad_zeros b_balanceV period_with_lag (PadWith (Fin 0)) ;;
  b_totalBalV <- broadcast fadd b3 (but_last (insert0 defaultBalV (Fin 0))) ;;
  b4 <- pad_zeros actualBalanceV period_with_lag (PadWith (Fin 0)) ;;
  totalBalV <- broadcast fadd b4 defaultBalV ;;
  let servicingFee_rate := servicing_fee scenario / Fin 12 in
  let servicingFee_begV := arr_sc fmul b_totalBalV servicingFee_rate in
  b5 <- broadcast fadd b_totalBalV totalBalV ;;
  let servicingFee_avgV := arr_sc fmul (arr_sc fdiv b5 (Fin 2)) servicingFee_rate in
  let servicingFeeV :=
    if String.eqb (servicing_fee_method scenario) "avg"
    then servicingFee_avgV else servicingFee_begV in
  (* Interest and cash flow *)
  actInterestV0 <- (if is_advance scenario then Ok (sc_arr fmul rate b_balanceV)
                    else (i1 <- broadcast fmul b_balanceV (sc_arr fsub (Fin 1) dqMdrV) ;;
                          i2 <- arr_nd fsub i1 default_aggMDRV ;;
                          broadcast fsub (sc_arr fmul rate i2) compIntV)) ;;
  actInterestV1 <- broadcast_inplace fsub actInterestV0 refundIntV ;;
  c1 <- pad_zeros actInterestV1 period_with_lag (PadWith (Fin 0)) ;;
  cfV <- broadcast fadd totalPrinV c1 ;;
  schedPrinV' <- pad_zeros schedPrinV period_with_lag (PadWith (Fin 0)) ;;
  prepayPrinV' <- pad_zeros prepayPrinV period_with_lag (PadWith (Fin 0)) ;;
  refundPrinV' <- pad_zeros refundPrinV period_with_lag (PadWith (Fin 0)) ;;
  defaultV' <- pad_zeros defaultV period_with_lag (PadWith (Fin 0)) ;;
  actInterestV <- pad_zeros actInterestV1 period_with_lag (PadWith (Fin 0)) ;;
  b_balanceV' <- pad_zeros b_balanceV period_with_lag (PadWith (Fin 0)) ;;
  actualBalanceV' <- pad_zeros actualBalanceV period_with_lag (PadWith (Fin 0)) ;;
  Ok {| rate := rate;
        X := X;
        balancesV := balancesV;
        interestsV := interestsV;
        principalsV := principalsV;
        paydownV := paydownV;
        p_survV := p_survV;
        default_aggMDRV := default_aggMDRV;
        scaled_default_aggMDRV := scaled_default_aggMDRV;
        cum_scaled_default_aggMDRV := cum_scaled_default_aggMDRV;
        survivorshipV := survivorshipV;
        sev_paddedV := sev_paddedV;
        b_totalBalV := b_totalBalV;
        totalBalV := totalBalV;
        servicingFee_rate := servicingFee_rate;
        servicingFee_begV := servicingFee_begV;
        servicingFee_avgV := servicingFee_avgV;
        table := {| Months := monthsV;
                    Prin := totalPrinV;
                    SchedPrin := schedPrinV';
                    PrepayPrin := prepayPrinV';
                    RefundPrin := refundPrinV';
                    Default := defaultV';
                    Writedown := writedownV;
                    Recovery := recoveryV;
                    Interest := actInterestV;
                    ServicingFee := servicingFeeV;
                    BeginningBalance := b_balanceV';
                    Balance := actualBalanceV';
                    CFL := cfV |} |}.

Definition getCashflow (self : Loan) (scenario : Scenario) : result DataFrame :=
  env <- getCashflow_locals self scenario ;;
  make_DataFrame (table env).

(** The balance the servicing fee is charged on, read off the columns of
    the table as lines 141-143 compute it from the same vectors: the
    defaulted balance not yet written down, and the beginning total balance
    of a month, which is its interest-bearing beginning balance plus the
    defaulted balance at the end of the month before. *)
Definition default_balance (df : DataFrame) : list float :=
  maximum (Fin 0) (cumsum (zip_with fsub (Default df) (Writedown df))).

Definition beginning_total_balance (df : DataFrame) : list float :=
  zip_with fadd (BeginningBalance df)
    (but_last (insert0 (default_balance df) (Fin 0))).

Definition ending_total_balance (df : DataFrame) : list float :=
  zip_with fadd (Balance df) (default_balance df).

(** ** Loan.y2p and Loan.p2y *)

(** [y2p] reads only the attribute [yieldValue] of its argument: [p2y]
    calls it with a [Helper] object instead of an [Input]. *)
Class HasYieldValue (A : Type) : Type := get_yieldValue : A -> float.

Record Helper : Type := mkHelper { helper_yieldValue : float }.

#[export] Instance Input_HasYieldValue : HasYieldValue Input := yieldValue.
#[export] Instance Helper_HasYieldValue : HasYieldValue Helper := helper_yieldValue.

Definition y2p {A : Type} `{HasYieldValue A}
  (self : Loan) (scenario : Scenario) (input : A) : result float :=
  let yV := map (fpow (Fin 1 + get_yieldValue input / Fin 12))
                (arange 1 (wam self + 1 + recovery_lag scenario)) in
  df1 <- getCashflow self scenario ;;
  let cfV := CFL df1 in
  df2 <- getCashflow self scenario ;;
  let servicingFeeV := ServicingFee df2 in
  df3 <- getCashflow self scenario ;;
  let refundPrinV := RefundPrin df3 in
  net <- broadcast fsub cfV servicingFeeV ;;
  pvNet <- broadcast fdiv net yV ;;
  pvRefund <- broadcast fdiv refundPrinV yV ;;
  let px := sum pvNet / (pv self - sum pvRefund) in
  Ok px.

(** The sign of a value, as the solver sees it. *)
Definition fsign (x : float) : option comparison :=
  match x with
  | Fin q => Some (Qsign q)
  | PInf => Some Gt
  | NInf => Some Lt
  | NaN => None
  end.

(** Both values strictly positive or both strictly negative. *)
Definition same_sign (x y : float) : Prop :=
  (fsign x = Some Gt /\ fsign y = Some Gt) \/
  (fsign x = Some Lt /\ fsign y = Some Lt).

Section Solver.

(** [scipy.optimize.brentq(f, a, b)], a library function: taken as a
    parameter. *)
Variable brentq : (float -> result float) -> float -> float -> result float.

Definition price_for_yield (self : Loan) (scenario : Scenario)
  (price_target : float) (y : float) : result float :=
  let input_obj := mkHelper y in
  p <- y2p self scenario input_obj ;;
  Ok (p - price_target).

Definition p2y (self : Loan) (scenario : Scenario) (input : Input) : result float :=
  let price_target := fullpx input in
  yield_solution <- brentq (price_for_yield self scenario price_target)
                           (Fin (1 # 10000)) (Fin 1) ;;
  Ok yield_solution.

End Solver.

(** The documented contract of a bracketing solver such as [brentq]: when
    the function has the same strict sign at both ends of the bracket, it
    raises [ValueError] ("f(a) and f(b) must have different signs"). *)
Definition bracket_contract
  (solve : (float -> result float) -> float -> float -> result float) : Prop :=
  forall f a b fa fb,
    f a = Ok fa -> f b = Ok fb -> same_sign fa fb ->
    solve f a b = Err ValueError.

(** [brentq] evaluates the function at both ends first and refuses a value
    that is not a number ([_wrap_nan_raise]): [ValueError]. *)
Definition nan_contract
  (solve : (float -> result float) -> float -> float -> result float) : Prop :=
  forall f a b fa fb,
    f a = Ok fa -> f b = Ok fb -> fa = NaN \/ fb = NaN ->
    solve f a b = Err ValueError.

(** A bracketing solver by bisection, one instance of the contracts. *)
Fixpoint bisect (fuel : nat) (f : float -> result float) (a b : float) (sa : comparison)
  : result float :=
  match fuel with
  | O => Err RuntimeError
  | S fuel' =>
      let m := fred ((a + b) / Fin 2) in
      fm <- f m ;;
      match fsign fm with
      | None => Err ValueError
      | Some Eq => Ok m
      | Some s => if match s, sa with Lt, Lt | Gt, Gt => true | _, _ => false end
                  then bisect fuel' f m b sa
                  else bisect fuel' f a m sa
      end
  end.

Definition bisection_solver (f : float -> result float) (a b : float) : result float :=
  fa <- f a ;;
  fb <- f b ;;
  match fsign fa, fsign fb with
  | None, _ | _, None => Err ValueError
  | Some Eq, _ => Ok a
  | _, Some Eq => Ok b
  | Some Gt, Some Gt | Some Lt, Some Lt => Err ValueError
  | Some sa, Some _ => bisect 100 f a b sa
  end.

(** ** The specification's formulas *)

(** Price given yield, as the specification words it: the sum over the
    months [t = 1 .. n] of [(cashflow[t] - servicingFee[t]) / (1 + y/12)^t],
    over [pv] less the sum of [refundPrincipal[t] / (1 + y/12)^t]. *)
Definition nth_month (col : list float) (t : nat) : float :=
  nth (t - 1) col NaN.

Fixpoint sum_months (n : nat) (term : nat -> float) : float :=
  match n with
  | O => Fin 0
  | S n' => sum_months n' term + term n
  end.

Definition discount (y : float) (t : nat) : float :=
  fpow (Fin 1 + y / Fin 12) (Z.of_nat t).

Definition price_spec (loan : Loan) (df : DataFrame) (y : float) (n : nat) : float :=
  sum_months n (fun t => (nth_month (CFL df) t - nth_month (ServicingFee df) t)
                         / discount y t)
  / (pv loan - sum_months n (fun t => nth_month (RefundPrin df) t / discount y t)).

(** The input conditions the specification lists as invalid. *)
Definition prob_ok (x : float) : bool :=
  match x with
  | Fin q => Qle_bool 0 q && Qle_bool q 1
  | _ => false
  end.

Definition nd_forallb (p : float -> bool) (a : ndarray) : bool :=
  match a with
  | Scalar x => p x
  | Array l => forallb p l
  end.

Definition nd_length_ok (n : Z) (a : ndarray) : bool :=
  match a with
  | Scalar _ => true
  | Array l => Z.eqb (Z.of_nat (length l)) n
  end.

Definition fle0 (x : float) : bool :=
  match x with
  | Fin q => Qle_bool q 0
  | NInf => true
  | _ => false
  end.

Definition flt0 (x : float) : bool :=
  match x with
  | Fin q => negb (Qle_bool 0 q)
  | NInf => true
  | _ => false
  end.

Definition invalid_input (loan : Loan) (sc : Scenario) : bool :=
  (wam loan <=? 0)%Z
  || fle0 (pv loan)
  || flt0 (wac loan)
  || negb (forallb (fun v => Z.eqb (Z.of_nat (length v)) (wam loan))
             [smmV sc; dqV sc; mdrV sc; sevV sc])
  || negb (forallb (forallb prob_ok) [smmV sc; dqV sc; mdrV sc; sevV sc]).

(** ** Auxiliary definitions for the proofs *)

(** Weakest precondition of a computation in the [result] monad. *)
Definition wp {A : Type} (m : result A) (Q : A -> Prop) : Prop :=
  match m with
  | Ok a => Q a
  | Err _ => False
  end.

(** An array combined with a scalar-or-array field of a fitting shape. *)
Definition nd_fits (n : nat) (a : ndarray) : Prop :=
  match a with
  | Scalar _ => True
  | Array l => length l = n
  end.

Definition nd_zip (f : float -> float -> float) (a : list float) (b : ndarray) : list float :=
  match b with
  | Scalar y => arr_sc f a y
  | Array l => zip_with f a l
  end.

Definition zip_nd (f : float -> float -> float) (a : ndarray) (b : list float) : list float :=
  match a with
  | Scalar x => sc_arr f x b
  | Array l => zip_with f l b
  end.

(** Padding with a value never fails; the result is at least [n] long. *)
Definition padded (vec : list float) (n : Z) (x : float) : list float :=
  vec ++ repeat x (Z.to_nat (n - Z.of_nat (length vec))).


(** The shapes of the data model: a positive term, a non-negative lag, rate
    vectors of length [wam], and the two fields with a scalar default either
    scalar or of length [wam]. *)
Definition shape_ok (loan : Loan) (sc : Scenario) : Prop :=
  (0 < wam loan)%Z /\ (0 <= recovery_lag sc)%Z /\
  Z.of_nat (length (smmV sc)) = wam loan /\
  Z.of_nat (length (dqV sc)) = wam loan /\
  Z.of_nat (length (mdrV sc)) = wam loan /\
  Z.of_nat (length (sevV sc)) = wam loan /\
  nd_fits (Z.to_nat (wam loan)) (refund_smm sc) /\
  nd_fits (Z.to_nat (wam loan)) (aggMDR_timingV sc).

(** The scalar power [(1 + rate) ** -wam] of line 100 does not raise. *)
Definition power_defined (loan : Loan) : Prop :=
  is_ok (py_pow (Fin 1 + wac loan / Fin 12) (- wam loan)) = true.

(** Rounding is outside the model, and with it the exact place where that
    power leaves the float range: near [2^1024] the rounding of
    [1 + wac/12] can move the power across the threshold of [py_pow].  The
    properties below keep a margin of [2^4] on either side: a power of
    magnitude at most [2^1020] is in range, one of at least [2^1028] is out
    of range. *)
Definition in_range_bound : Q := inject_Z (2 ^ 1020).
Definition out_of_range_bound : Q := inject_Z (2 ^ 1028).

Definition power_in_range (loan : Loan) : Prop :=
  exists q : Q,
    (Fin 1 + wac loan / Fin 12)%float = Fin q /\ ~ (q == 0)%Q /\
    (Qabs (q ^ (- wam loan)) <= in_range_bound)%Q.

Definition power_out_of_range (loan : Loan) : Prop :=
  exists q : Q,
    (Fin 1 + wac loan / Fin 12)%float = Fin q /\ ~ (q == 0)%Q /\
    (out_of_range_bound <= Qabs (q ^ (- wam loan)))%Q.

(** Every column of the table, and every local vector of the extended
    horizon, has [n] entries. *)
Definition height (n : nat) (env : Locals) : Prop :=
  length (Months (table env)) = n /\
  Forall (fun c => length c = n) (columns (table env)) /\
  length (sev_paddedV env) = n /\
  length (b_totalBalV env) = n /\
  length (totalBalV env) = n.

(** What [getCashflow] computes on well-shaped input, local by local. *)
Record locals_spec (loan : Loan) (sc : Scenario) (env : Locals) : Prop := {
  spec_height : height (Z.to_nat (wam loan + recovery_lag sc)) env;
  spec_rate : rate env = wac loan / Fin 12;
  spec_balancesV :
    balancesV env =
    arr_sc fdiv
      (sc_arr fmul (pv loan)
         (sc_arr fsub (Fin 1)
            (map (fpow (Fin 1 + rate env))
               (map (fun k => (- (wam loan - k))%Z) (arange 0 (wam loan + 1))))))
      (Fin 1 - fpow (Fin 1 + rate env) (- wam loan));
  spec_p_survV :
    p_survV env =
    cumprod
      (zip_with fsub
         (nd_zip fsub
            (zip_with fsub (repeat (Fin 1) (Z.to_nat (wam loan))) (smmV sc))
            (refund_smm sc))
         (mdrV sc));
  spec_default_aggMDRV :
    default_aggMDRV env = sc_nd fmul (pv loan * aggMDR sc) (aggMDR_timingV sc);
  spec_scaled :
    scaled_default_aggMDRV env =
    zip_nd fdiv (default_aggMDRV env)
      (zip_with fmul (but_last (balancesV env)) (p_survV env));
  spec_cum :
    cum_scaled_default_aggMDRV env = cumsum (scaled_default_aggMDRV env);
  spec_survivorshipV :
    survivorshipV env =
    Fin 1 :: zip_with fmul (p_survV env)
               (sc_arr fsub (Fin 1) (cum_scaled_default_aggMDRV env));
  spec_sev_paddedV :
    sev_paddedV env =
    padded (sevV sc) (wam loan + recovery_lag sc) (last (sevV sc) NaN);
  spec_Writedown :
    Writedown (table env) =
    shift_elements (Default (table env)) (recovery_lag sc) (Fin 0);
  spec_Recovery :
    Recovery (table env) =
    zip_with fmul (Writedown (table env)) (sc_arr fsub (Fin 1) (sev_paddedV env));
  spec_servicingFee_rate : servicingFee_rate env = servicing_fee sc / Fin 12;
  spec_servicingFee_begV :
    servicingFee_begV env = arr_sc fmul (b_totalBalV env) (servicingFee_rate env);
  spec_servicingFee_avgV :
    servicingFee_avgV env =
    arr_sc fmul
      (arr_sc fdiv (zip_with fadd (b_totalBalV env) (totalBalV env)) (Fin 2))
      (servicingFee_rate env);
  spec_ServicingFee :
    ServicingFee (table env) =
    if String.eqb (servicing_fee_method sc) "avg"
    then servicingFee_avgV env else servicingFee_begV env
}.

(** The balances of the servicing fee on well-shaped input: the two
    columns the default balance is computed from, and the locals
    [b_totalBalV] and [totalBalV] in terms of the columns of the table. *)
Record balances_spec (loan : Loan) (sc : Scenario) (env : Locals) : Prop := {
  bal_BeginningBalance :
    BeginningBalance (table env) =
    padded (but_last (zip_with fmul (survivorshipV env) (balancesV env)))
      (wam loan + recovery_lag sc) (Fin 0);
  bal_Default :
    Default (table env) =
    padded
      (nd_zip fadd
         (zip_with fmul
            (but_last (zip_with fmul (survivorshipV env) (balancesV env)))
            (mdrV sc))
         (default_aggMDRV env))
      (wam loan + recovery_lag sc) (Fin 0);
  bal_b_totalBalV : b_totalBalV env = beginning_total_balance (table env);
  bal_totalBalV : totalBalV env = ending_total_balance (table env)
}.

(** ** Concrete loans and scenarios *)

(** A scenario with every rate vector zero over [n] months and the
    dataclass defaults elsewhere. *)
Definition zero_scenario (n : nat) : Scenario :=
  {| smmV := repeat (Fin 0) n;
     dqV := repeat (Fin 0) n;
     mdrV := repeat (Fin 0) n;
     sevV := repeat (Fin 0) n;
     recovery_lag := 0;
     refund_smm := Scalar (Fin 0);
     refund_premium := Fin 1;
     aggMDR := Fin 0;
     aggMDR_timingV := Scalar (Fin 0);
     compIntHC := Fin 0;
     servicing_fee := Fin 0;
     is_advance := false;
     servicing_fee_method := "avg" |}.

Definition with_smmV (sc : Scenario) (v : list float) : Scenario :=
  {| smmV := v; dqV := dqV sc; mdrV := mdrV sc; sevV := sevV sc;
     recovery_lag := recovery_lag sc; refund_smm := refund_smm sc;
     refund_premium := refund_premium sc; aggMDR := aggMDR sc;
     aggMDR_timingV := aggMDR_timingV sc; compIntHC := compIntHC sc;
     servicing_fee := servicing_fee sc; is_advance := is_advance sc;
     servicing_fee_method := servicing_fee_method sc |}.

Definition with_mdrV (sc : Scenario) (v : list float) : Scenario :=
  {| smmV := smmV sc; dqV := dqV sc; mdrV := v; sevV := sevV sc;
     recovery_lag := recovery_lag sc; refund_smm := refund_smm sc;
     refund_premium := refund_premium sc; aggMDR := aggMDR sc;
     aggMDR_timingV := aggMDR_timingV sc; compIntHC := compIntHC sc;
     servicing_fee := servicing_fee sc; is_advance := is_advance sc;
     servicing_fee_method := servicing_fee_method sc |}.

Definition with_sevV (sc : Scenario) (v : list float) : Scenario :=
  {| smmV := smmV sc; dqV := dqV sc; mdrV := mdrV sc; sevV := v;
     recovery_lag := recovery_lag sc; refund_smm := refund_smm sc;
     refund_premium := refund_premium sc; aggMDR := aggMDR sc;
     aggMDR_timingV := aggMDR_timingV sc; compIntHC := compIntHC sc;
     servicing_fee := servicing_fee sc; is_advance := is_advance sc;
     servicing_fee_method := servicing_fee_method sc |}.

Definition with_recovery_lag (sc : Scenario) (k : Z) : Scenario :=
  {| smmV := smmV sc; dqV := dqV sc; mdrV := mdrV sc; sevV := sevV sc;
     recovery_lag := k; refund_smm := refund_smm sc;
     refund_premium := refund_premium sc; aggMDR := aggMDR sc;
     aggMDR_timingV := aggMDR_timingV sc; compIntHC := compIntHC sc;
     servicing_fee := servicing_fee sc; is_advance := is_advance sc;
     servicing_fee_method := servicing_fee_method sc |}.

Definition with_servicing_fee (sc : Scenario) (fee : float) (method : string) : Scenario :=
  {| smmV := smmV sc; dqV := dqV sc; mdrV := mdrV sc; sevV := sevV sc;
     recovery_lag := recovery_lag sc; refund_smm := refund_smm sc;
     refund_premium := refund_premium sc; aggMDR := aggMDR sc;
     aggMDR_timingV := aggMDR_timingV sc; compIntHC := compIntHC sc;
     servicing_fee := fee; is_advance := is_advance sc;
     servicing_fee_method := method |}.

(** [Loan(wac=0.06, wam=12, pv=1200)] *)
Definition loan_12m : Loan := {| wac := Fin (6 # 100); wam := 12; pv := Fin 1200 |}.

(** [Loan(wac=0.06, wam=2, pv=1200)] *)
Definition loan_2m : Loan := {| wac := Fin (6 # 100); wam := 2; pv := Fin 1200 |}.

(** [Loan(wac=0.06, wam=1, pv=100)] *)
Definition loan_1m : Loan := {| wac := Fin (6 # 100); wam := 1; pv := Fin 100 |}.

(** [Loan(wac=0.0, wam=12, pv=1200)]: a zero coupon *)
Definition loan_zero_coupon : Loan := {| wac := Fin 0; wam := 12; pv := Fin 1200 |}.

(** [Loan(wac=0.06, wam=1, pv=-100)]: a negative principal *)
Definition loan_negative_pv : Loan := {| wac := Fin (6 # 100); wam := 1; pv := Fin (-100) |}.

(** The whole balance prepays in the only month: [smmV = [1.0]]. *)
Definition scenario_full_prepay : Scenario := with_smmV (zero_scenario 1) [Fin 1].

(** [smmV = [0.6]], [mdrV = [0.6]]: each in [0,1], together above one. *)
Definition scenario_heavy_hazard : Scenario :=
  with_mdrV (with_smmV (zero_scenario 1) [Fin (6 # 10)]) [Fin (6 # 10)].

(** A servicing fee of 12% a year with the unrecognized method string
    ["average"]. *)
Definition scenario_fee_average : Scenario :=
  with_servicing_fee (zero_scenario 1) (Fin (12 # 100)) "average".

(** [Loan(wac=-11.9999, wam=61, pv=100)]: a negative coupon, the growth
    factor [1 + wac/12] is 1/120000. *)
Definition loan_negative_coupon : Loan :=
  {| wac := Fin (-119999 # 10000); wam := 61; pv := Fin 100 |}.

(** Two months with prepayment, default, refund and aggregate default, a
    recovery lag of one month, a servicing fee of 12% a year and the
    unrecognized method string ["average"]. *)
Definition scenario_stressed : Scenario :=
  {| smmV := [Fin (1 # 10); Fin (1 # 10)];
     dqV := [Fin 0; Fin 0];
     mdrV := [Fin (1 # 4); Fin (1 # 4)];
     sevV := [Fin (1 # 2); Fin (1 # 4)];
     recovery_lag := 1;
     refund_smm := Scalar (Fin (1 # 20));
     refund_premium := Fin 1;
     aggMDR := Fin (1 # 100);
     aggMDR_timingV := Array [Fin (1 # 2); Fin (1 # 2)];
     compIntHC := Fin 0;
     servicing_fee := Fin (12 # 100);
     is_advance := false;
     servicing_fee_method := "average" |}.

(** [Loan(wac=0.06, wam=1, pv=1)] with the whole balance defaulting in the
    only month at a severity of 10%: [mdrV = [1.0]], [sevV = [0.1]]. *)
Definition loan_unit : Loan := {| wac := Fin (6 # 100); wam := 1; pv := Fin 1 |}.

Definition scenario_full_default : Scenario :=
  with_sevV (with_mdrV (zero_scenario 1) [Fin 1]) [Fin (1 # 10)].

(** ** binary64 arithmetic of the recovery

    An exact rational cannot tell an identity of real arithmetic from one
    of floating-point arithmetic.  For the one place where a property
    depends on the difference, the elementwise operation of line 132,
    [writedownV * (1 - sevV)], is also embedded on IEEE 754 binary64 values
    with rounding to nearest even, from the executable specification of the
    Standard Library. *)
Definition binary64 : Type := SpecFloat.spec_float.

Definition b64_of_Z (z : Z) : binary64 := SpecFloat.binary_normalize 53 1024 z 0 false.
Definition b64_mul : binary64 -> binary64 -> binary64 := SpecFloat.SFmul 53 1024.
Definition b64_sub : binary64 -> binary64 -> binary64 := SpecFloat.SFsub 53 1024.
Definition b64_div : binary64 -> binary64 -> binary64 := SpecFloat.SFdiv 53 1024.
Definition b64_eqb : binary64 -> binary64 -> bool := SpecFloat.SFeqb.

(** The float literal [0.1]: the binary64 value nearest to one tenth. *)
Definition b64_tenth : binary64 := b64_div (b64_of_Z 1) (b64_of_Z 10).

Definition recovery_binary64 (writedown sev : binary64) : binary64 :=
  b64_mul writedown (b64_sub (b64_of_Z 1) sev).

(** ** Predicates of the claims *)

(** A finite value within [atol_safedivide] of zero. *)
Definition near_zero (b : float) : Prop :=
  match b with
  | Fin q => (Qabs q <= atol_safedivide)%Q
  | _ => False
  end.

(** [wac >= 0] and finite, as the data model has it. *)
Definition wac_nonneg (loan : Loan) : Prop :=
  exists w, wac loan = Fin w /\ (0 <= w)%Q.

(** The value of a computation that returned, NaN otherwise. *)
Definition value_of (m : result float) : float :=
  match m with
  | Ok v => v
  | Err _ => NaN
  end.

(** How the columns of the table are built from the vectors of the
    [wam]-month horizon: [actualBalanceV0] is the product of survivorship
    and balances before it is split into beginning and ending balances,
    [prepayPrinV0] the prepayment before the refund is added. *)
Record flows_spec (loan : Loan) (sc : Scenario) (env : Locals)
  (actualBalanceV0 defaultV schedPrinV prepayPrinV0 refundPrinV actInterestV
     : list float) : Prop := {
  flow_BeginningBalance :
    BeginningBalance (table env) =
    padded (but_last actualBalanceV0) (wam loan + recovery_lag sc) (Fin 0);
  flow_Balance :
    Balance (table env) =
    padded (from1 actualBalanceV0) (wam loan + recovery_lag sc) (Fin 0);
  flow_actualBalanceV0 :
    actualBalanceV0 = zip_with fmul (survivorshipV env) (balancesV env);
  flow_Default :
    Default (table env) = padded defaultV (wam loan + recovery_lag sc) (Fin 0);
  flow_SchedPrin :
    SchedPrin (table env) = padded schedPrinV (wam loan + recovery_lag sc) (Fin 0);
  flow_Prin :
    Prin (table env) =
    zip_with fadd
      (zip_with fadd
         (padded schedPrinV (wam loan + recovery_lag sc) (Fin 0))
         (padded prepayPrinV0 (wam loan + recovery_lag sc) (Fin 0)))
      (Recovery (table env));
  flow_RefundPrin :
    RefundPrin (table env) =
    padded refundPrinV (wam loan + recovery_lag sc) (Fin 0);
  flow_PrepayPrin :
    PrepayPrin (table env) =
    padded (zip_with fadd prepayPrinV0 refundPrinV)
      (wam loan + recovery_lag sc) (Fin 0);
  flow_Interest :
    Interest (table env) =
    padded actInterestV (wam loan + recovery_lag sc) (Fin 0);
  flow_CFL :
    CFL (table env) = zip_with fadd (Prin (table env)) (Interest (table env));
  flow_length_actualBalanceV0 :
    length actualBalanceV0 = S (Z.to_nat (wam loan));
  flow_length_defaultV : length defaultV = Z.to_nat (wam loan);
  flow_length_schedPrinV : length schedPrinV = Z.to_nat (wam loan);
  flow_length_prepayPrinV0 : length prepayPrinV0 = Z.to_nat (wam loan);
  flow_length_refundPrinV : length refundPrinV = Z.to_nat (wam loan);
  flow_length_actInterestV : length actInterestV = Z.to_nat (wam loan)
}.

Definition with_dqV (sc : Scenario) (v : list float) : Scenario :=
  {| smmV := smmV sc; dqV := v; mdrV := mdrV sc; sevV := sevV sc;
     recovery_lag := recovery_lag sc; refund_smm := refund_smm sc;
     refund_premium := refund_premium sc; aggMDR := aggMDR sc;
     aggMDR_timingV := aggMDR_timingV sc; compIntHC := compIntHC sc;
     servicing_fee := servicing_fee sc; is_advance := is_advance sc;
     servicing_fee_method := servicing_fee_method sc |}.

Definition with_is_advance (sc : Scenario) (b : bool) : Scenario :=
  {| smmV := smmV sc; dqV := dqV sc; mdrV := mdrV sc; sevV := sevV sc;
     recovery_lag := recovery_lag sc; refund_smm := refund_smm sc;
     refund_premium := refund_premium sc; aggMDR := aggMDR sc;
     aggMDR_timingV := aggMDR_timingV sc; compIntHC := compIntHC sc;
     servicing_fee := servicing_fee sc; is_advance := b;
     servicing_fee_method := servicing_fee_method sc |}.

(** * Properties *)

Close Scope string_scope.
Close Scope float_scope.

(** ** The [result] monad: weakest preconditions *)

Lemma wp_bind {A B : Type} (m : result A) (k : A -> result B) (Q : B -> Prop) :
  wp m (fun a => wp (k a) Q) -> wp (bind m k) Q.
Proof. destruct m; simpl; auto. Qed.

Lemma wp_ok {A : Type} (a : A) (Q : A -> Prop) : Q a -> wp (Ok a) Q.
Proof. auto. Qed.

Lemma wp_elim {A : Type} (m : result A) (Q : A -> Prop) :
  wp m Q -> exists a, m = Ok a /\ Q a.
Proof. destruct m; simpl; [eauto | tauto]. Qed.

Lemma wp_intro {A : Type} (m : result A) (Q : A -> Prop) (a : A) :
  m = Ok a -> Q a -> wp m Q.
Proof. intros -> H; exact H. Qed.

Lemma wp_mono {A : Type} (m : result A) (P Q : A -> Prop) :
  (forall a, P a -> Q a) -> wp m P -> wp m Q.
Proof. destruct m; simpl; auto. Qed.

Lemma bind_ok_inv {A B : Type} (m : result A) (k : A -> result B) (b : B) :
  bind m k = Ok b -> exists a, m = Ok a /\ k a = Ok b.
Proof. destruct m; simpl; [eauto | discriminate]. Qed.

(** ** Lengths of arrays *)

Lemma length_zip_with f a b :
  length (zip_with f a b) = Nat.min (length a) (length b).
Proof.
  revert b; induction a as [|x a IH]; intros [|y b]; simpl; auto.
Qed.

Lemma length_accumulate f acc l : length (accumulate f acc l) = length l.
Proof.
  revert acc; induction l as [|x l IH]; intros acc; simpl; auto.
Qed.

Lemma length_cumulate f l : length (cumulate f l) = length l.
Proof.
  destruct l; simpl; auto using length_accumulate.
Qed.

Lemma length_cumprod l : length (cumprod l) = length l.
Proof. apply length_cumulate. Qed.

Lemma length_cumsum l : length (cumsum l) = length l.
Proof. apply length_cumulate. Qed.

Lemma length_but_last v : length (but_last v) = (length v - 1)%nat.
Proof.
  unfold but_last.
  induction v as [|x [|y v] IH]; simpl in *; auto.
  rewrite IH; lia.
Qed.

Lemma length_from1 v : length (from1 v) = (length v - 1)%nat.
Proof. apply length_tl. Qed.

Lemma length_arange lo hi : length (arange lo hi) = Z.to_nat (hi - lo).
Proof. unfold arange; now rewrite length_map, length_seq. Qed.

Lemma length_shift_elements arr num fill :
  length (shift_elements arr num fill) = length arr.
Proof.
  unfold shift_elements.
  destruct (0 <? num)%Z; [|destruct (num <? 0)%Z]; auto;
    rewrite length_app, repeat_length, ?length_firstn, ?length_skipn; lia.
Qed.

Lemma length_arr_sc f a y : length (arr_sc f a y) = length a.
Proof. apply length_map. Qed.

Lemma length_sc_arr f x b : length (sc_arr f x b) = length b.
Proof. apply length_map. Qed.

Lemma length_maximum x v : length (maximum x v) = length v.
Proof. apply length_map. Qed.

Lemma length_insert0 v x : length (insert0 v x) = S (length v).
Proof. reflexivity. Qed.

Create Rewrite HintDb len.

#[local] Hint Rewrite length_zip_with length_accumulate length_cumulate length_cumprod length_cumsum
  length_but_last length_from1 length_arange length_shift_elements
  length_arr_sc length_sc_arr length_maximum length_insert0
  length_map length_app repeat_length length_seq : len.

Ltac len := autorewrite with len; cbn [length]; lia.

(** ** Broadcasting on arrays of one length *)

Lemma broadcast_same f a b :
  length a = length b -> broadcast f a b = Ok (zip_with f a b).
Proof.
  intros H; unfold broadcast; now rewrite H, Nat.eqb_refl.
Qed.

Lemma broadcast_inplace_same f a b :
  length a = length b -> broadcast_inplace f a b = Ok (zip_with f a b).
Proof.
  intros H; unfold broadcast_inplace; now rewrite H, Nat.eqb_refl.
Qed.

Lemma wp_broadcast f a b (Q : list float -> Prop) :
  length a = length b ->
  (forall v, v = zip_with f a b -> length v = length a -> Q v) ->
  wp (broadcast f a b) Q.
Proof.
  intros H HQ; rewrite (broadcast_same f a b H); simpl.
  apply HQ; auto. rewrite length_zip_with; lia.
Qed.

Lemma wp_broadcast_inplace f a b (Q : list float -> Prop) :
  length a = length b ->
  (forall v, v = zip_with f a b -> length v = length a -> Q v) ->
  wp (broadcast_inplace f a b) Q.
Proof.
  intros H HQ; rewrite (broadcast_inplace_same f a b H); simpl.
  apply HQ; auto. rewrite length_zip_with; lia.
Qed.

Lemma nd_fits_sc_nd f x b n : nd_fits n b -> nd_fits n (sc_nd f x b).
Proof. destruct b; simpl; auto. intros <-; apply length_map. Qed.

Lemma wp_arr_nd f a b (Q : list float -> Prop) :
  nd_fits (length a) b ->
  (forall v, v = nd_zip f a b -> length v = length a -> Q v) ->
  wp (arr_nd f a b) Q.
Proof.
  destruct b as [y|l]; simpl; intros H HQ.
  - apply HQ; auto. apply length_map.
  - rewrite broadcast_same by auto. simpl. apply HQ; auto.
    rewrite length_zip_with; lia.
Qed.

Lemma wp_nd_arr f a b (Q : list float -> Prop) :
  nd_fits (length b) a ->
  (forall v, v = zip_nd f a b -> length v = length b -> Q v) ->
  wp (nd_arr f a b) Q.
Proof.
  destruct a as [x|l]; simpl; intros H HQ.
  - apply HQ; auto. apply length_map.
  - rewrite broadcast_same by auto. simpl. apply HQ; auto.
    rewrite length_zip_with; lia.
Qed.

Lemma wp_full x n (Q : list float -> Prop) :
  (0 <= n)%Z ->
  (forall v, v = repeat x (Z.to_nat n) -> length v = Z.to_nat n -> Q v) ->
  wp (full x n) Q.
Proof.
  intros H HQ; unfold full.
  destruct (Z.ltb_spec n 0); [lia|]. simpl. apply HQ; auto using repeat_length.
Qed.

Lemma pad_zeros_with vec n x : pad_zeros vec n (PadWith x) = Ok (padded vec n x).
Proof.
  unfold pad_zeros, padded.
  destruct (Z.ltb_spec (Z.of_nat (length vec)) n); simpl; auto.
  replace (Z.to_nat (n - Z.of_nat (length vec))) with O by lia.
  simpl; now rewrite app_nil_r.
Qed.

Lemma length_padded vec n x :
  Z.of_nat (length (padded vec n x)) = Z.max (Z.of_nat (length vec)) n.
Proof. unfold padded; rewrite length_app, repeat_length; lia. Qed.

Lemma wp_pad_zeros_with vec n x (Q : list float -> Prop) :
  (forall v, v = padded vec n x ->
             Z.of_nat (length v) = Z.max (Z.of_nat (length vec)) n -> Q v) ->
  wp (pad_zeros vec n (PadWith x)) Q.
Proof.
  intros HQ; rewrite pad_zeros_with; simpl. apply HQ; auto using length_padded.
Qed.

Lemma pad_zeros_last vec n :
  vec <> [] -> pad_zeros vec n PadLast = Ok (padded vec n (last vec NaN)).
Proof.
  intros Hne. unfold pad_zeros, padded.
  destruct (Z.ltb_spec (Z.of_nat (length vec)) n); simpl.
  - destruct vec; [congruence | reflexivity].
  - replace (Z.to_nat (n - Z.of_nat (length vec))) with O by lia.
    simpl; now rewrite app_nil_r.
Qed.

Lemma wp_pad_zeros_last vec n (Q : list float -> Prop) :
  vec <> [] ->
  (forall v, v = padded vec n (last vec NaN) ->
             Z.of_nat (length v) = Z.max (Z.of_nat (length vec)) n -> Q v) ->
  wp (pad_zeros vec n PadLast) Q.
Proof.
  intros Hne HQ; rewrite pad_zeros_last by auto; simpl.
  apply HQ; auto using length_padded.
Qed.

(** ** Shapes: [getCashflow] returns a table on well-shaped input *)

Lemma nd_fits_len n m a : nd_fits n a -> m = n -> nd_fits m a.
Proof. now intros H ->. Qed.

Ltac nd_fits_tac :=
  eapply nd_fits_len;
  [first [eassumption | apply nd_fits_sc_nd; eassumption] | len].

(** Each intermediate array is kept as a variable with its defining
    equation and its length in closed form over the term [n] and the lag [k]. *)
Ltac wp_intro_len :=
  let v := fresh "v" in
  let Hv := fresh "Hv" in
  let Ev := fresh "Ev" in
  intros v Ev Hv; cbv beta zeta; autorewrite with len in Hv;
  match goal with
  | Hn : wam _ = Z.of_nat ?n, Hk : recovery_lag _ = Z.of_nat ?k |- _ =>
      first [ assert (length v = n) by lia
            | assert (length v = S n) by lia
            | assert (length v = (n + k)%nat) by lia ];
      clear Hv
  end.

Ltac wp_step :=
  lazymatch goal with
  | |- wp (bind _ _) _ => apply wp_bind
  | |- wp (broadcast _ _ _) _ => apply wp_broadcast; [len | wp_intro_len]
  | |- wp (broadcast_inplace _ _ _) _ =>
      apply wp_broadcast_inplace; [len | wp_intro_len]
  | |- wp (arr_nd _ _ _) _ => apply wp_arr_nd; [nd_fits_tac | wp_intro_len]
  | |- wp (nd_arr _ _ _) _ => apply wp_nd_arr; [nd_fits_tac | wp_intro_len]
  | |- wp (ones _) _ => apply wp_full; [lia | wp_intro_len]
  | |- wp (zeros _) _ => apply wp_full; [lia | wp_intro_len]
  | |- wp (pad_zeros _ _ (PadWith _)) _ => apply wp_pad_zeros_with; wp_intro_len
  | |- wp (pad_zeros _ _ PadLast) _ =>
      apply wp_pad_zeros_last;
      [let E := fresh in intro E; rewrite E in *; simpl in *; lia | wp_intro_len]
  | |- wp (if ?b then _ else _) _ => destruct b
  | |- wp (Ok _) (fun _ => _) => apply wp_ok; cbv beta zeta
  end.

Lemma py_pow_defined x k :
  is_ok (py_pow x k) = true -> py_pow x k = Ok (fpow x k).
Proof.
  unfold py_pow. destruct x as [q| | |]; auto.
  destruct k, (Qsign q); try discriminate;
    destruct (overflows _); auto; discriminate.
Qed.

Lemma getCashflow_locals_spec loan sc :
  shape_ok loan sc -> power_defined loan ->
  wp (getCashflow_locals loan sc) (locals_spec loan sc).
Proof.
  intros (Hwam & Hlag & Hsmm & Hdq & Hmdr & Hsev & Hrefund & Htiming) Hbase.
  apply py_pow_defined in Hbase.
  destruct (Z_of_nat_complete (wam loan)) as [n Hn]; [lia|].
  destruct (Z_of_nat_complete (recovery_lag sc)) as [k Hk]; [lia|].
  unfold getCashflow_locals. cbv zeta.
  rewrite Hn, Hk in *. rewrite Nat2Z.id in Hrefund, Htiming.
  apply Nat2Z.inj in Hsmm, Hdq, Hmdr, Hsev.
  wp_step. wp_step.
  apply wp_bind. rewrite Hbase. apply wp_ok.
  repeat wp_step.
  all: repeat wp_step.
  all: apply wp_ok; split; cbn [rate balancesV p_survV default_aggMDRV
         scaled_default_aggMDRV cum_scaled_default_aggMDRV survivorshipV
         sev_paddedV b_totalBalV totalBalV servicingFee_rate servicingFee_begV
         servicingFee_avgV table Months Prin SchedPrin PrepayPrin RefundPrin
         Default Writedown Recovery Interest ServicingFee BeginningBalance
         Balance CFL].
  all: try rewrite ?Hn, ?Hk, ?Nat2Z.id; try congruence.
  all: try (rewrite Nat2Z.id in *; unfold insert0; congruence).
  all: unfold height, columns;
    cbn [table Months Prin SchedPrin PrepayPrin RefundPrin Default Writedown
         Recovery Interest ServicingFee BeginningBalance Balance CFL
         sev_paddedV b_totalBalV totalBalV];
    repeat split; repeat constructor;
    try destruct (String.eqb (servicing_fee_method sc) "avg"); len.
Qed.

Lemma make_DataFrame_ok df n :
  length (Months df) = n -> Forall (fun c => length c = n) (columns df) ->
  make_DataFrame df = Ok df.
Proof.
  intros Hm Hc. unfold make_DataFrame, same_length. rewrite Hm.
  replace (forallb _ _) with true; auto.
  symmetry. apply forallb_forall. rewrite Forall_forall in Hc.
  intros c Hin. apply Nat.eqb_eq; auto.
Qed.

Lemma getCashflow_ok loan sc :
  shape_ok loan sc -> power_defined loan ->
  exists env,
    getCashflow_locals loan sc = Ok env /\
    locals_spec loan sc env /\
    getCashflow loan sc = Ok (table env).
Proof.
  intros Hs Hb.
  destruct (wp_elim _ _ (getCashflow_locals_spec Hs Hb)) as (env & E & Hspec).
  exists env; split; [exact E | split; [exact Hspec |]].
  unfold getCashflow; rewrite E; simpl.
  destruct (spec_height Hspec) as (Hm & Hc & _).
  eapply make_DataFrame_ok; eauto.
Qed.

(** ** safedivide *)

Lemma Qsign_Gt q : (0 < q)%Q -> Qsign q = Gt.
Proof. intros H. unfold Qsign. now apply Qgt_alt. Qed.

Lemma Qsign_Lt q : (q < 0)%Q -> Qsign q = Lt.
Proof. intros H. unfold Qsign. now apply Qlt_alt. Qed.

Lemma Qsign_Eq q : Qsign q = Eq <-> (q == 0)%Q.
Proof. unfold Qsign. symmetry. apply Qeq_alt. Qed.

Lemma fdiv_fin a b : ~ (b == 0)%Q -> (Fin a / Fin b)%float = Fin (a / b).
Proof.
  intros H. unfold fdiv.
  destruct (Qsign b) eqn:E; auto. apply Qsign_Eq in E. contradiction.
Qed.

Lemma isclose0_near_zero b :
  isclose0 b atol_safedivide = true <-> near_zero b.
Proof.
  destruct b as [q| | |]; try (simpl; split; [discriminate | tauto]).
  unfold isclose0, near_zero. rewrite Qle_bool_iff.
  setoid_replace (q - 0)%Q with q by ring.
  setoid_replace (atol_safedivide + 0 * Qabs 0)%Q with atol_safedivide by ring.
  tauto.
Qed.

(** C9, as amended: [safedivide a b] is 0 for every [a] when [b] is zero and,
    more generally, when [b] is finite with [|b| <= 3e-11], the tolerance
    included; for every other [b] it is the quotient [a / b]. *)
Theorem safedivide_amended (a b : float) :
  (b = Fin 0 -> safedivide a b = Fin 0) /\
  (near_zero b -> safedivide a b = Fin 0) /\
  (~ near_zero b -> safedivide a b = (a / b)%float).
Proof.
  unfold safedivide.
  destruct (isclose0 b atol_safedivide) eqn:E.
  - apply isclose0_near_zero in E. repeat split; auto. tauto.
  - assert (N : ~ near_zero b).
    { intros H. apply isclose0_near_zero in H. congruence. }
    repeat split; auto; try tauto.
    intros ->. exfalso. apply N. simpl. unfold atol_safedivide. now compute.
Qed.

Lemma safedivide_amended_witness :
  safedivide (Fin 7) (Fin 0) = Fin 0 /\
  safedivide (Fin 7) (Fin (3 # 100000000000)) = Fin 0 /\
  safedivide (Fin 7) (Fin 2) = (Fin 7 / Fin 2)%float.
Proof.
  split; [|split].
  - apply (proj1 (safedivide_amended (Fin 7) (Fin 0))). reflexivity.
  - apply (proj1 (proj2 (safedivide_amended (Fin 7) (Fin (3 # 100000000000))))).
    simpl. unfold atol_safedivide. apply Qle_refl.
  - apply (proj2 (proj2 (safedivide_amended (Fin 7) (Fin 2)))).
    simpl. unfold atol_safedivide. intros H. now compute in H.
Defined.

(** C9, as stated, fails on the boundary: at [b = 3e-11] the divisor is not
    below the tolerance, yet the result is 0 and not the quotient. *)
Lemma safedivide_boundary_counterexample :
  ~ (Qabs (3 # 100000000000) < 3 # 100000000000)%Q /\
  safedivide (Fin 1) (Fin (3 # 100000000000)) = Fin 0 /\
  ~ feq (Fin 1 / Fin (3 # 100000000000))%float (Fin 0).
Proof.
  split; [|split].
  - intros H. now compute in H.
  - reflexivity.
  - simpl. intros H. now compute in H.
Qed.

(** ** The aggregate-default scaling divides without a guard *)

(** C1: at a full prepayment in month 1 the denominator
    [balance[t] * periodicSurv[t]] is exactly zero, [safedivide] would give
    0, and the code's plain division gives NaN, which reaches the
    survivorship path and the Balance and Servicing Fee columns. *)
Theorem scaled_default_unguarded :
  wp (getCashflow_locals loan_1m scenario_full_prepay)
     (fun env =>
        map fred (zip_with fmul (but_last (balancesV env)) (p_survV env)) = [Fin 0] /\
        default_aggMDRV env = Scalar (Fin (100 * 0 * 0)) /\
        safedivide (Fin (100 * 0 * 0)) (Fin 0) = Fin 0 /\
        scaled_default_aggMDRV env = [NaN] /\
        survivorshipV env = [Fin 1; NaN] /\
        Balance (table env) = [NaN] /\
        ServicingFee (table env) = [NaN]) /\
  is_ok (getCashflow loan_1m scenario_full_prepay) = true.
Proof. vm_compute. repeat split. Qed.

(** ** A zero coupon *)

(** C2: with [wac = 0] the payment [X] is [pv/wam] (numpy-financial treats
    the zero rate), but the balance path is zero over zero: every scheduled
    principal and every interest of the table is NaN. *)
Theorem zero_coupon_is_nan :
  wp (getCashflow_locals loan_zero_coupon (zero_scenario 12))
     (fun env =>
        fred (X env) = Fin 100 /\
        balancesV env = repeat NaN 13 /\
        SchedPrin (table env) = repeat NaN 12 /\
        Interest (table env) = repeat NaN 12) /\
  is_ok (getCashflow loan_zero_coupon (zero_scenario 12)) = true.
Proof. vm_compute. repeat split. Qed.

(** With the coupon of the specification's example the same code is
    sound: over two months the month-1 interest is 6 and the last balance
    is 0. *)
Example coupon_6pct_first_interest :
  wp (getCashflow loan_2m (zero_scenario 2))
     (fun df => fred (nth 0 (Interest df) NaN) = Fin 6 /\
                fred (nth 1 (Balance df) NaN) = Fin 0).
Proof. vm_compute. repeat split. Qed.

(** ** Rows of the table *)

Lemma Qpower_neg_le_1 a n : (1 <= a)%Q -> (0 < n)%Z -> (0 < a ^ (- n) <= 1)%Q.
Proof.
  intros Ha Hn. split.
  - apply Qpower_0_lt. lra.
  - rewrite Qpower_opp.
    assert (H1 : (1 <= a ^ n)%Q) by (apply Qpower_1_le; [exact Ha | lia]).
    apply Qle_shift_inv_r; lra.
Qed.

Lemma in_range_below_threshold : (in_range_bound < overflow_threshold)%Q.
Proof. apply Qlt_alt. vm_compute. reflexivity. Qed.

Lemma threshold_below_out_of_range : (overflow_threshold < out_of_range_bound)%Q.
Proof. apply Qlt_alt. vm_compute. reflexivity. Qed.

Lemma in_range_bound_ge_1 : (1 <= in_range_bound)%Q.
Proof. apply Qle_alt. vm_compute. discriminate. Qed.

Lemma fpow_fin_nonzero q k : ~ (q == 0)%Q -> fpow (Fin q) k = Fin (q ^ k).
Proof.
  intros H. destruct k; simpl; auto.
  destruct (Qsign q) eqn:E; auto. apply Qsign_Eq in E. contradiction.
Qed.

Lemma py_pow_in_range q k :
  ~ (q == 0)%Q -> (Qabs (q ^ k) <= in_range_bound)%Q ->
  py_pow (Fin q) k = Ok (fpow (Fin q) k).
Proof.
  intros Hq Hb. unfold py_pow.
  assert (O : overflows (fpow (Fin q) k) = false).
  { rewrite fpow_fin_nonzero by exact Hq. cbn [overflows].
    destruct (Qle_bool overflow_threshold (Qabs (q ^ k))) eqn:B; [|reflexivity].
    apply Qle_bool_iff in B. exfalso.
    apply (Qlt_irrefl overflow_threshold).
    eapply Qle_lt_trans; [exact B|].
    eapply Qle_lt_trans; [exact Hb | exact in_range_below_threshold]. }
  rewrite O.
  destruct k, (Qsign q) eqn:E; try reflexivity.
  apply Qsign_Eq in E. contradiction.
Qed.

Lemma py_pow_out_of_range q k :
  ~ (q == 0)%Q -> (out_of_range_bound <= Qabs (q ^ k))%Q ->
  py_pow (Fin q) k = Err OverflowError.
Proof.
  intros Hq Hb. unfold py_pow.
  assert (O : overflows (fpow (Fin q) k) = true).
  { rewrite fpow_fin_nonzero by exact Hq. cbn [overflows].
    apply Qle_bool_iff.
    eapply Qle_trans; [|exact Hb].
    apply Qlt_le_weak, threshold_below_out_of_range. }
  rewrite O.
  destruct k, (Qsign q) eqn:E; try reflexivity.
  apply Qsign_Eq in E. contradiction.
Qed.

Lemma py_pow_zero_base q k :
  (q == 0)%Q -> (k < 0)%Z -> py_pow (Fin q) k = Err ZeroDivisionError.
Proof.
  intros Hq Hk. unfold py_pow. destruct k; try lia.
  apply Qsign_Eq in Hq. now rewrite Hq.
Qed.

Lemma power_in_range_defined loan : power_in_range loan -> power_defined loan.
Proof.
  intros (q & E & Hq & Hb). unfold power_defined.
  now rewrite E, (py_pow_in_range _ Hq Hb).
Qed.

Lemma growth_factor_fin loan w :
  wac loan = Fin w -> (Fin 1 + wac loan / Fin 12)%float = Fin (1 + w / 12).
Proof.
  intros E. rewrite E.
  assert (N : ~ (12 == 0)%Q) by (intros H; now compute in H).
  now rewrite (fdiv_fin _ N).
Qed.

(** With a non-negative coupon the growth factor is at least 1 and its
    negative power lies in (0, 1]: the scalar power is in range. *)
Lemma wac_nonneg_in_range loan :
  (0 < wam loan)%Z -> wac_nonneg loan -> power_in_range loan.
Proof.
  intros Hn (w & E & Hw).
  exists (1 + w / 12)%Q. split; [now apply growth_factor_fin|].
  assert (Ha : (1 <= 1 + w / 12)%Q).
  { assert (0 <= w / 12)%Q by (apply Qle_shift_div_l; [reflexivity | lra]). lra. }
  split; [lra|].
  destruct (Qpower_neg_le_1 Ha Hn) as (H0 & H1).
  rewrite Qabs_pos by lra.
  eapply Qle_trans; [exact H1 | exact in_range_bound_ge_1].
Qed.

Lemma wac_nonneg_power loan :
  (0 < wam loan)%Z -> wac_nonneg loan -> power_defined loan.
Proof. intros Hn Hw. now apply power_in_range_defined, wac_nonneg_in_range. Qed.

Lemma shape_ok_wam loan sc : shape_ok loan sc -> (0 < wam loan)%Z.
Proof. now intros (H & _). Qed.

Lemma arange_1 n : arange 1 (Z.of_nat n + 1) = map Z.of_nat (seq 1 n).
Proof.
  unfold arange. replace (Z.to_nat (Z.of_nat n + 1 - 1)) with n by lia.
  rewrite <- seq_shift, map_map. apply map_ext. intros; lia.
Qed.

(** C8: on a loan and scenario of the data model, [getCashflow] returns a
    table of exactly [wam + recovery_lag] rows: the months run 1, 2, ...,
    [wam + recovery_lag] in order, and each of the twelve other columns has
    an entry for every one of them. *)
Theorem getCashflow_rows loan sc :
  shape_ok loan sc -> wac_nonneg loan ->
  exists df,
    getCashflow loan sc = Ok df /\
    Months df = map Z.of_nat (seq 1 (Z.to_nat (wam loan + recovery_lag sc))) /\
    Forall (fun col => length col = Z.to_nat (wam loan + recovery_lag sc))
           (columns df).
Proof.
  intros Hs Hw.
  destruct (getCashflow_ok Hs (wac_nonneg_power (shape_ok_wam Hs) Hw)) as (env & E & Hspec & Hdf).
  exists (table env). split; [exact Hdf|].
  destruct (spec_height Hspec) as (_ & Hc & _). split; [|exact Hc].
  revert E. unfold getCashflow_locals. cbv zeta. intros E.
  repeat (apply bind_ok_inv in E; destruct E as (? & _ & E)).
  destruct Hs as (Hwam & Hlag & _).
  assert (M : Months (table env) = arange 1 (wam loan + 1 + recovery_lag sc)).
  { inversion E. reflexivity. }
  rewrite M.
  replace (wam loan + 1 + recovery_lag sc)%Z
    with (Z.of_nat (Z.to_nat (wam loan + recovery_lag sc)) + 1)%Z by lia.
  apply arange_1.
Qed.

(** ** Price given yield *)

Lemma make_DataFrame_inv df' df :
  make_DataFrame df' = Ok df ->
  df = df' /\ Forall (fun c => length c = length (Months df)) (columns df).
Proof.
  unfold make_DataFrame, same_length.
  destruct (forallb _ _) eqn:E; [|discriminate].
  intros H; inversion H; subst. split; auto.
  apply Forall_forall. intros c Hin.
  rewrite forallb_forall in E. apply Nat.eqb_eq; auto.
Qed.

Lemma getCashflow_Months loan sc df :
  getCashflow loan sc = Ok df ->
  Months df = arange 1 (wam loan + 1 + recovery_lag sc) /\
  Forall (fun c => length c = length (Months df)) (columns df).
Proof.
  unfold getCashflow. intros E.
  apply bind_ok_inv in E. destruct E as (env & E & Hdf).
  apply make_DataFrame_inv in Hdf. destruct Hdf as (-> & Hc).
  split; [|exact Hc].
  revert E. unfold getCashflow_locals. cbv zeta. intros E.
  repeat (apply bind_ok_inv in E; destruct E as (? & _ & E)).
  inversion E. reflexivity.
Qed.

Lemma sum_snoc l x : sum (l ++ [x]) = (sum l + x)%float.
Proof. unfold sum. now rewrite fold_left_app. Qed.

Lemma sum_months_ext n f g :
  (forall t, (1 <= t <= n)%nat -> f t = g t) -> sum_months n f = sum_months n g.
Proof.
  induction n as [|n IH]; intros H; simpl; auto.
  rewrite IH, H; auto; intros; try apply H; lia.
Qed.

Lemma sum_as_months l : sum l = sum_months (length l) (nth_month l).
Proof.
  induction l as [|x l IH] using rev_ind; [reflexivity|].
  rewrite sum_snoc, length_app, Nat.add_1_r. simpl.
  rewrite IH. f_equal.
  - apply sum_months_ext. intros t Ht. unfold nth_month.
    rewrite app_nth1; auto; lia.
  - unfold nth_month. rewrite app_nth2 by lia.
    replace (S (length l) - 1 - length l)%nat with O by lia. reflexivity.
Qed.

Lemma nth_zip_with f a b t d :
  (t < length a)%nat -> (t < length b)%nat ->
  nth t (zip_with f a b) d = f (nth t a d) (nth t b d).
Proof.
  revert b t; induction a as [|x a IH]; intros [|y b] [|t]; simpl; intros;
    try lia; auto.
  apply IH; lia.
Qed.

Lemma nth_arange_1 hi t d :
  (1 <= t)%nat -> (Z.of_nat t < hi)%Z -> nth (t - 1) (arange 1 hi) d = Z.of_nat t.
Proof.
  intros H1 H2. unfold arange.
  set (f := fun i => (1 + Z.of_nat i)%Z).
  rewrite nth_indep with (d' := f O) by (rewrite length_map, length_seq; lia).
  rewrite map_nth, seq_nth by lia. subst f. cbv beta. lia.
Qed.

Lemma nth_month_discount y hi t :
  (1 <= t)%nat -> (Z.of_nat t < hi)%Z ->
  nth_month (map (fpow (Fin 1 + y / Fin 12)) (arange 1 hi)) t = discount y t.
Proof.
  intros H1 H2. unfold nth_month, discount.
  set (f := fpow (Fin 1 + y / Fin 12)).
  rewrite nth_indep with (d' := f 0%Z)
    by (rewrite length_map, length_arange; lia).
  rewrite map_nth. f_equal. now apply nth_arange_1.
Qed.

(** The discounted sum of a column over the months [1 .. n]. *)
Lemma sum_discounted col y n :
  length col = n ->
  sum (zip_with fdiv col
         (map (fpow (Fin 1 + y / Fin 12)) (arange 1 (Z.of_nat n + 1)))) =
  sum_months n (fun t => (nth_month col t / discount y t)%float).
Proof.
  intros Hn. rewrite sum_as_months.
  replace (length (zip_with _ _ _)) with n by len.
  apply sum_months_ext. intros t Ht.
  unfold nth_month at 1. rewrite nth_zip_with by len.
  fold (nth_month col t). f_equal.
  apply nth_month_discount; lia.
Qed.

Lemma y2p_eq A (HA : HasYieldValue A) loan sc (input : A) df :
  getCashflow loan sc = Ok df ->
  y2p loan sc input =
  Ok (price_spec loan df (get_yieldValue input)
        (Z.to_nat (wam loan + recovery_lag sc))).
Proof.
  intros E. destruct (getCashflow_Months _ _ E) as (HM & Hc).
  set (n := Z.to_nat (wam loan + recovery_lag sc)).
  assert (Hlen : length (Months df) = n) by (rewrite HM; subst n; len).
  assert (Hhi : arange 1 (wam loan + 1 + recovery_lag sc) = arange 1 (Z.of_nat n + 1)).
  { unfold arange. f_equal. f_equal. subst n. lia. }
  rewrite Hlen in Hc. unfold columns in Hc.
  repeat match goal with H : Forall _ (_ :: _) |- _ => inversion_clear H end.
  unfold y2p. cbv zeta. rewrite E. cbn [bind].
  rewrite Hhi.
  rewrite broadcast_same by congruence. cbn [bind].
  rewrite broadcast_same by len. cbn [bind].
  rewrite broadcast_same by len. cbn [bind].
  unfold price_spec. do 3 f_equal.
  - rewrite sum_discounted by len.
    apply sum_months_ext. intros t Ht. f_equal.
    unfold nth_month. apply nth_zip_with; lia.
  - f_equal. now apply sum_discounted.
Qed.


Lemma shape_ok_1m : shape_ok loan_1m (zero_scenario 1).
Proof. unfold shape_ok; simpl; repeat split; lia. Qed.

Lemma wac_nonneg_6pct loan : wac loan = Fin (6 # 100) -> wac_nonneg loan.
Proof. intros E; exists (6 # 100); split; [exact E | discriminate]. Qed.


(** ** Inputs are not validated *)

(** C3, as stated, fails: a non-positive principal, a negative coupon, a
    rate outside [0,1] and a rate vector of length 1 for a term of 2 months
    are each invalid, and each is accepted: the table and the price are
    returned. *)
Lemma invalid_input_accepted_counterexample :
  (invalid_input loan_negative_pv (zero_scenario 1) = true /\
   is_ok (getCashflow loan_negative_pv (zero_scenario 1)) = true /\
   is_ok (y2p loan_negative_pv (zero_scenario 1) (mkInput (Fin (5 # 100)) (Fin 0))) = true) /\
  (invalid_input (mkLoan (Fin (-6 # 100)) 1 (Fin 100)) (zero_scenario 1) = true /\
   is_ok (getCashflow (mkLoan (Fin (-6 # 100)) 1 (Fin 100)) (zero_scenario 1)) = true) /\
  (invalid_input loan_1m (with_smmV (zero_scenario 1) [Fin 2]) = true /\
   is_ok (getCashflow loan_1m (with_smmV (zero_scenario 1) [Fin 2])) = true) /\
  (invalid_input loan_2m (with_smmV (zero_scenario 2) [Fin 0]) = true /\
   is_ok (getCashflow loan_2m (with_smmV (zero_scenario 2) [Fin 0])) = true).
Proof. vm_compute. repeat split. Qed.

(** A severity vector of a wrong length is met only where the recovery is
    computed, as the [ValueError] of numpy's broadcasting. *)
Example wrong_length_sevV :
  getCashflow loan_2m (with_sevV (zero_scenario 2) (repeat (Fin 0) 3)) = Err ValueError.
Proof. vm_compute. reflexivity. Qed.

(** A negative coupon is met only at the scalar power of line 100, and only
    when that power is not a float: [(1/120000) ** -61] is out of range, and
    a growth factor of zero cannot be raised to a negative power. *)
Example negative_coupon_overflows :
  getCashflow loan_negative_coupon (zero_scenario 61) = Err OverflowError /\
  getCashflow (mkLoan (Fin (-12)) 1 (Fin 100)) (zero_scenario 1) = Err ZeroDivisionError.
Proof. vm_compute. split; reflexivity. Qed.

Lemma getCashflow_power_error loan sc e :
  length (dqV sc) = length (mdrV sc) ->
  py_pow (Fin 1 + wac loan / Fin 12)%float (- wam loan) = Err e ->
  getCashflow loan sc = Err e.
Proof.
  intros Hlen E. unfold getCashflow, getCashflow_locals. cbv zeta.
  rewrite broadcast_same by exact Hlen. cbn [bind].
  rewrite E. reflexivity.
Qed.

Lemma y2p_error A (HA : HasYieldValue A) loan sc (input : A) e :
  getCashflow loan sc = Err e -> y2p loan sc input = Err e.
Proof. intros E. unfold y2p. cbv zeta. now rewrite E. Qed.

Lemma shape_ok_dq_mdr loan sc :
  shape_ok loan sc -> length (dqV sc) = length (mdrV sc).
Proof. intros (_ & _ & _ & Hdq & Hmdr & _). lia. Qed.

(** C3, as amended: no computation checks its input values, and there is
    no error of invalid input.  With a positive term, a non-negative lag and
    rate vectors of length [wam], [getCashflow] and [y2p] return a result,
    whatever the principal and the rates are, for every coupon [wac >= 0]
    and for every negative coupon whose power [(1 + wac/12) ** -wam] of
    line 100 is in the float range; the input is refused only where that
    power raises, in the middle of the computation: with
    [ZeroDivisionError] when [wac = -12], and with [OverflowError] when the
    power is out of range. *)
Theorem values_not_validated loan sc (input : Input) :
  shape_ok loan sc ->
  (power_in_range loan ->
   is_ok (getCashflow loan sc) = true /\ is_ok (y2p loan sc input) = true) /\
  (wac_nonneg loan -> power_in_range loan) /\
  (forall w, wac loan = Fin w -> (w == -12)%Q ->
   getCashflow loan sc = Err ZeroDivisionError /\
   y2p loan sc input = Err ZeroDivisionError) /\
  (power_out_of_range loan ->
   getCashflow loan sc = Err OverflowError /\
   y2p loan sc input = Err OverflowError).
Proof.
  intros Hs. split; [|split; [|split]].
  - intros Hr.
    destruct (getCashflow_ok Hs (power_in_range_defined Hr)) as (env & _ & _ & Hdf).
    split.
    + now rewrite Hdf.
    + erewrite y2p_eq by exact Hdf. reflexivity.
  - apply wac_nonneg_in_range. exact (shape_ok_wam Hs).
  - intros w Hw Hw12.
    assert (Hg : getCashflow loan sc = Err ZeroDivisionError).
    { apply getCashflow_power_error; [exact (shape_ok_dq_mdr Hs)|].
      rewrite (growth_factor_fin _ Hw).
      apply py_pow_zero_base.
      - rewrite Hw12. reflexivity.
      - pose proof (shape_ok_wam Hs). lia. }
    split; [exact Hg | now apply y2p_error].
  - intros (q & E & Hq & Hb).
    assert (Hg : getCashflow loan sc = Err OverflowError).
    { apply getCashflow_power_error; [exact (shape_ok_dq_mdr Hs)|].
      rewrite E. now apply py_pow_out_of_range. }
    split; [exact Hg | now apply y2p_error].
Qed.

Lemma power_in_range_negative_pv : power_in_range loan_negative_pv.
Proof.
  exists (1 + (6 # 100) / 12)%Q. split; [reflexivity|].
  split; [intros H; now compute in H|].
  apply Qle_alt. vm_compute. discriminate.
Qed.

Lemma values_not_validated_witness :
  shape_ok loan_negative_pv (zero_scenario 1) /\
  power_in_range loan_negative_pv /\
  is_ok (getCashflow loan_negative_pv (zero_scenario 1)) = true /\
  is_ok (y2p loan_negative_pv (zero_scenario 1) (mkInput (Fin (5 # 100)) (Fin 0))) = true.
Proof.
  assert (Hs : shape_ok loan_negative_pv (zero_scenario 1))
    by (unfold shape_ok; simpl; repeat split; lia).
  split; [exact Hs | split; [exact power_in_range_negative_pv |]].
  exact (proj1 (values_not_validated (mkInput (Fin (5 # 100)) (Fin 0)) Hs)
           power_in_range_negative_pv).
Defined.

(** The negative coupon -6% over one month is in range, and the coupon
    -11.9999% over 61 months is out of range. *)
Example negative_coupon_ranges :
  power_in_range (mkLoan (Fin (-6 # 100)) 1 (Fin 100)) /\
  power_out_of_range loan_negative_coupon.
Proof.
  split.
  - exists (1 + (-6 # 100) / 12)%Q. split; [reflexivity|].
    split; [intros H; now compute in H|].
    apply Qle_alt. vm_compute. discriminate.
  - exists (1 + (-119999 # 10000) / 12)%Q. split; [reflexivity|].
    split; [intros H; now compute in H|].
    apply Qle_alt. vm_compute. discriminate.
Qed.

(** ** Servicing fee method *)

Lemma getCashflow_method_irrelevant loan sc m :
  String.eqb (servicing_fee_method sc) "avg" = false ->
  String.eqb m "avg" = false ->
  getCashflow loan (with_servicing_fee sc (servicing_fee sc) m) = getCashflow loan sc.
Proof.
  intros H1 H2. unfold getCashflow, getCashflow_locals.
  cbn [with_servicing_fee smmV dqV mdrV sevV recovery_lag refund_smm
       refund_premium aggMDR aggMDR_timingV compIntHC servicing_fee is_advance
       servicing_fee_method].
  rewrite H1, H2. reflexivity.
Qed.

(** The balances the two fee methods are charged on, in terms of the
    columns of the table. *)
Lemma getCashflow_locals_balances loan sc :
  shape_ok loan sc -> power_defined loan ->
  wp (getCashflow_locals loan sc) (balances_spec loan sc).
Proof.
  intros (Hwam & Hlag & Hsmm & Hdq & Hmdr & Hsev & Hrefund & Htiming) Hbase.
  apply py_pow_defined in Hbase.
  destruct (Z_of_nat_complete (wam loan)) as [n Hn]; [lia|].
  destruct (Z_of_nat_complete (recovery_lag sc)) as [k Hk]; [lia|].
  unfold getCashflow_locals. cbv zeta.
  rewrite Hn, Hk in *. rewrite Nat2Z.id in Hrefund, Htiming.
  apply Nat2Z.inj in Hsmm, Hdq, Hmdr, Hsev.
  wp_step. wp_step.
  apply wp_bind. rewrite Hbase. apply wp_ok.
  repeat wp_step.
  all: repeat wp_step.
  all: apply wp_ok; split;
    unfold beginning_total_balance, ending_total_balance, default_balance, insert0;
    cbn [b_totalBalV totalBalV survivorshipV balancesV default_aggMDRV table
         BeginningBalance Balance Default Writedown];
    rewrite ?Hn, ?Hk; unfold insert0 in *; congruence.
Qed.

(** C10: when the method string is anything but ["avg"], the table is the
    one of the method ["beg"]; on a loan and scenario of the data model it
    is returned without an error, and its servicing fee is, month by month
    over the [wam + recovery_lag] months, the beginning total balance times
    the monthly fee rate [servicing_fee / 12].  The beginning total balance
    of a month is its beginning balance, survivorship times scheduled
    balance, plus the defaulted balance not yet written down at the end of
    the month before. *)
Theorem servicing_fee_not_avg loan sc :
  servicing_fee_method sc <> "avg"%string ->
  getCashflow loan sc =
    getCashflow loan (with_servicing_fee sc (servicing_fee sc) "beg") /\
  (shape_ok loan sc -> wac_nonneg loan ->
   exists env,
     getCashflow_locals loan sc = Ok env /\
     getCashflow loan sc = Ok (table env) /\
     locals_spec loan sc env /\
     balances_spec loan sc env /\
     length (ServicingFee (table env)) = Z.to_nat (wam loan + recovery_lag sc) /\
     length (beginning_total_balance (table env)) =
       Z.to_nat (wam loan + recovery_lag sc) /\
     ServicingFee (table env) =
       arr_sc fmul (beginning_total_balance (table env))
         (servicing_fee sc / Fin 12)%float).
Proof.
  intros Hm. apply String.eqb_neq in Hm. split.
  - symmetry. now apply getCashflow_method_irrelevant.
  - intros Hs Hw.
    pose proof (wac_nonneg_power (shape_ok_wam Hs) Hw) as Hb.
    destruct (getCashflow_ok Hs Hb) as (env & E & Hspec & Hdf).
    pose proof (getCashflow_locals_balances Hs Hb) as Hbal.
    rewrite E in Hbal. cbn [wp] in Hbal.
    destruct (spec_height Hspec) as (_ & Hc & _ & Hlen & _).
    unfold columns in Hc.
    repeat match goal with H : Forall _ (_ :: _) |- _ => inversion_clear H end.
    exists env. split; [exact E|]. split; [exact Hdf|].
    split; [exact Hspec|]. split; [exact Hbal|].
    split; [assumption|].
    split; [now rewrite <- (bal_b_totalBalV Hbal)|].
    rewrite (spec_ServicingFee Hspec), Hm, (spec_servicingFee_begV Hspec).
    now rewrite (spec_servicingFee_rate Hspec), (bal_b_totalBalV Hbal).
Qed.

Lemma shape_ok_stressed : shape_ok loan_2m scenario_stressed.
Proof. unfold shape_ok; simpl; repeat split; lia. Qed.

Lemma servicing_fee_not_avg_witness :
  servicing_fee_method scenario_stressed <> "avg"%string /\
  shape_ok loan_2m scenario_stressed /\ wac_nonneg loan_2m /\
  exists env,
    getCashflow_locals loan_2m scenario_stressed = Ok env /\
    getCashflow loan_2m scenario_stressed = Ok (table env) /\
    locals_spec loan_2m scenario_stressed env /\
    balances_spec loan_2m scenario_stressed env /\
    length (ServicingFee (table env)) =
      Z.to_nat (wam loan_2m + recovery_lag scenario_stressed) /\
    length (beginning_total_balance (table env)) =
      Z.to_nat (wam loan_2m + recovery_lag scenario_stressed) /\
    ServicingFee (table env) =
      arr_sc fmul (beginning_total_balance (table env))
        (servicing_fee scenario_stressed / Fin 12)%float.
Proof.
  assert (Hm : servicing_fee_method scenario_stressed <> "avg"%string)
    by discriminate.
  split; [exact Hm|].
  split; [exact shape_ok_stressed|].
  split; [now apply wac_nonneg_6pct|].
  apply (proj2 (servicing_fee_not_avg loan_2m scenario_stressed Hm)).
  - exact shape_ok_stressed.
  - now apply wac_nonneg_6pct.
Defined.

(** The fee of that scenario, with its method ["average"]: 1% a month of
    the beginning balance of 1200 in month 1, of the beginning balance and
    the default of 306 pending from month 1 in month 2, and of the default
    pending from month 2 in month 3.  The method ["avg"] gives other
    fees. *)
Example servicing_fee_stressed :
  wp (getCashflow loan_2m scenario_stressed)
     (fun df =>
        map fred (BeginningBalance df) = [Fin 1200; Fin (143514 # 401); Fin 0] /\
        map fred (Default df) = [Fin 306; Fin (76569 # 802); Fin 0] /\
        map fred (Writedown df) = [Fin 0; Fin 306; Fin (76569 # 802)] /\
        map fred (beginning_total_balance df) =
          [Fin 1200; Fin (266220 # 401); Fin (76569 # 802)] /\
        map fred (ServicingFee df) =
          [Fin 12; Fin (13311 # 2005); Fin (76569 # 80200)]) /\
  wp (getCashflow loan_2m
        (with_servicing_fee scenario_stressed (Fin (12 # 100)) "avg"))
     (fun df =>
        map fred (ServicingFee df) =
          [Fin (37371 # 4010); Fin (609009 # 160400); Fin (76569 # 160400)]).
Proof. vm_compute. repeat split. Qed.

(** The fee of a zero scenario with the method ["average"]: 100 of
    beginning balance at 1% a month. *)
Example servicing_fee_average_string :
  wp (getCashflow loan_1m scenario_fee_average)
     (fun df => map fred (ServicingFee df) = [Fin 1]).
Proof. vm_compute. reflexivity. Qed.

(** ** Yield given price *)

Lemma bisection_solver_contract : bracket_contract bisection_solver.
Proof.
  intros f a b fa fb Ha Hb Hs. unfold bisection_solver.
  rewrite Ha, Hb. cbn [bind].
  destruct Hs as [[-> ->] | [-> ->]]; reflexivity.
Qed.

Lemma bisection_solver_nan_contract : nan_contract bisection_solver.
Proof.
  intros f a b fa fb Ha Hb Hs. unfold bisection_solver.
  rewrite Ha, Hb. cbn [bind].
  destruct Hs as [-> | ->]; [reflexivity|].
  now destruct (fsign fa) as [[| |]|].
Qed.

(** C7: whatever the root-finder is, [p2y] returns what it returns for the
    function [y |-> y2p(y) - fullpx] on the bracket [0.0001, 1.0]: the
    root it finds, or its failure.  With a root-finder that keeps the
    bracketing contract, when that function has one strict sign at both
    ends of the bracket [p2y] fails with the solver's [ValueError] and
    returns no yield; and with a root-finder that refuses a value that is
    not a number, so it does when the price is NaN at an end of the
    bracket. *)
Theorem p2y_not_bracketed
  (solve : (float -> result float) -> float -> float -> result float)
  loan sc (input : Input) :
  p2y solve loan sc input =
    solve (fun y => p <- y2p loan sc (mkHelper y) ;; Ok (p - fullpx input)%float)
          (Fin (1 # 10000)) (Fin 1) /\
  (forall fa fb,
     price_for_yield loan sc (fullpx input) (Fin (1 # 10000)) = Ok fa ->
     price_for_yield loan sc (fullpx input) (Fin 1) = Ok fb ->
     (bracket_contract solve -> same_sign fa fb ->
      p2y solve loan sc input = Err ValueError) /\
     (nan_contract solve -> fa = NaN \/ fb = NaN ->
      p2y solve loan sc input = Err ValueError)).
Proof.
  assert (E : p2y solve loan sc input =
              solve (price_for_yield loan sc (fullpx input)) (Fin (1 # 10000)) (Fin 1)).
  { unfold p2y. cbv zeta. now destruct (solve _ _ _). }
  split; [exact E|].
  intros fa fb Ha Hb. split.
  - intros Hc Hs. rewrite E. now apply (Hc _ _ _ fa fb).
  - intros Hc Hs. rewrite E. now apply (Hc _ _ _ fa fb).
Qed.

Lemma p2y_not_bracketed_witness :
  bracket_contract bisection_solver /\
  same_sign
    (value_of (price_for_yield loan_1m (zero_scenario 1) (Fin 0) (Fin (1 # 10000))))
    (value_of (price_for_yield loan_1m (zero_scenario 1) (Fin 0) (Fin 1))) /\
  p2y bisection_solver loan_1m (zero_scenario 1) (mkInput (Fin 0) (Fin 0)) =
    Err ValueError.
Proof.
  assert (Hs : same_sign
    (value_of (price_for_yield loan_1m (zero_scenario 1) (Fin 0) (Fin (1 # 10000))))
    (value_of (price_for_yield loan_1m (zero_scenario 1) (Fin 0) (Fin 1))))
    by (left; vm_compute; split; reflexivity).
  split; [exact bisection_solver_contract | split; [exact Hs |]].
  refine (proj1 (proj2 (@p2y_not_bracketed bisection_solver loan_1m (zero_scenario 1)
                          (mkInput (Fin 0) (Fin 0))) _ _ _ _)
            bisection_solver_contract Hs).
  - vm_compute. reflexivity.
  - vm_compute. reflexivity.
Defined.

(** With the bisection solver and a target price that the price function
    takes inside the bracket, [p2y] returns that yield: at a yield of
    50.005% the one-month loan is worth 241200/250001 of its principal. *)
Example p2y_returns_the_root :
  p2y bisection_solver loan_1m (zero_scenario 1)
      (mkInput (Fin 0) (Fin (241200 # 250001))) = Ok (Fin (10001 # 20000)) /\
  wp (y2p loan_1m (zero_scenario 1) (mkInput (Fin (10001 # 20000)) (Fin 0)))
     (fun px => feq px (Fin (241200 # 250001))).
Proof. vm_compute. split; reflexivity. Qed.

(** With a zero coupon the price is NaN at every yield, and [p2y] fails. *)
Example p2y_nan_price :
  price_for_yield (mkLoan (Fin 0) 1 (Fin 100)) (zero_scenario 1) (Fin 1)
    (Fin (1 # 10000)) = Ok NaN /\
  p2y bisection_solver (mkLoan (Fin 0) 1 (Fin 100)) (zero_scenario 1)
      (mkInput (Fin 0) (Fin 1)) = Err ValueError.
Proof. vm_compute. split; reflexivity. Qed.

Lemma getCashflow_rows_witness :
  shape_ok loan_1m (zero_scenario 1) /\ wac_nonneg loan_1m /\
  exists df,
    getCashflow loan_1m (zero_scenario 1) = Ok df /\
    Months df = map Z.of_nat (seq 1 1) /\
    Forall (fun col => length col = 1%nat) (columns df).
Proof.
  split; [exact shape_ok_1m | split; [now apply wac_nonneg_6pct |]].
  apply (getCashflow_rows shape_ok_1m (wac_nonneg_6pct loan_1m eq_refl)).
Defined.

(** ** Loss decomposition *)

Lemma last_nth (l : list float) d :
  l <> [] -> last l d = nth (length l - 1) l d.
Proof.
  induction l as [|x l IH]; [congruence|]. intros _.
  destruct l as [|y l]; [reflexivity|].
  change (last (x :: y :: l) d) with (last (y :: l) d).
  rewrite IH by discriminate. simpl. now rewrite Nat.sub_0_r.
Qed.

(** C4, as amended: on a loan and scenario of the data model the recovery
    of every month of the extended horizon is the writedown of the month
    times one minus its severity, the months past the term taking the last
    severity of the scenario: the product the code computes, in its
    floating-point arithmetic. *)
Theorem recovery_is_writedown_less_severity loan sc :
  shape_ok loan sc -> wac_nonneg loan ->
  exists df,
    getCashflow loan sc = Ok df /\
    length (Recovery df) = Z.to_nat (wam loan + recovery_lag sc) /\
    forall t, (Z.of_nat t < wam loan + recovery_lag sc)%Z ->
      nth t (Recovery df) NaN =
        (nth t (Writedown df) NaN *
         (Fin 1 - nth (Nat.min t (Z.to_nat (wam loan) - 1)) (sevV sc) NaN))%float.
Proof.
  intros Hs Hw.
  destruct (getCashflow_ok Hs (wac_nonneg_power (shape_ok_wam Hs) Hw))
    as (env & _ & Hspec & Hdf).
  exists (table env). split; [exact Hdf|].
  destruct (spec_height Hspec) as (_ & Hc & Hlen & _).
  unfold columns in Hc.
  repeat match goal with H : Forall _ (_ :: _) |- _ => inversion_clear H end.
  split; [assumption|].
  intros t Ht.
  destruct Hs as (Hwam & Hlag & _ & _ & _ & Hsv & _).
  rewrite (spec_Recovery Hspec).
  rewrite nth_zip_with by (rewrite ?length_sc_arr; lia).
  f_equal. unfold sc_arr.
  rewrite nth_indep with (d' := (Fin 1 - NaN)%float)
    by (rewrite length_map; lia).
  rewrite (map_nth (fsub (Fin 1))). f_equal.
  rewrite (spec_sev_paddedV Hspec). unfold padded.
  destruct (Nat.lt_ge_cases t (length (sevV sc))) as [Hlt|Hge].
  - rewrite app_nth1 by exact Hlt. f_equal. lia.
  - rewrite app_nth2 by exact Hge.
    rewrite nth_repeat_lt by lia.
    rewrite last_nth by (intros E; rewrite E in Hsv; simpl in Hsv; lia).
    f_equal. lia.
Qed.

Lemma recovery_is_writedown_less_severity_witness :
  shape_ok loan_2m scenario_stressed /\ wac_nonneg loan_2m /\
  exists df,
    getCashflow loan_2m scenario_stressed = Ok df /\
    length (Recovery df) = Z.to_nat (wam loan_2m + recovery_lag scenario_stressed) /\
    forall t, (Z.of_nat t < wam loan_2m + recovery_lag scenario_stressed)%Z ->
      nth t (Recovery df) NaN =
        (nth t (Writedown df) NaN *
         (Fin 1 - nth (Nat.min t (Z.to_nat (wam loan_2m) - 1))
                    (sevV scenario_stressed) NaN))%float.
Proof.
  split; [exact shape_ok_stressed | split; [now apply wac_nonneg_6pct |]].
  exact (recovery_is_writedown_less_severity shape_ok_stressed
           (wac_nonneg_6pct loan_2m eq_refl)).
Defined.

(** A principal of 1 that defaults in full at a severity of 10%: the
    writedown is 1 and the severity 0.1. *)
Example full_default_writedown :
  wp (getCashflow loan_unit scenario_full_default)
     (fun df => map fred (Writedown df) = [Fin 1] /\
                map fred (Recovery df) = [Fin (9 # 10)]) /\
  sevV scenario_full_default = [Fin (1 # 10)].
Proof. vm_compute. repeat split. Qed.

(** C4, as stated, fails: the identity is one of real arithmetic.  On
    binary64 values, for a writedown of 1.0 and a severity of 0.1 the
    recovery [1.0 * (1 - 0.1)] is 0.9, and writedown less recovery is
    0.09999999999999998, which is not the product [1.0 * 0.1 = 0.1]. *)
Lemma loss_decomposition_inexact_counterexample :
  b64_eqb (b64_mul (b64_of_Z 1) b64_tenth)
          (b64_sub (b64_of_Z 1) (recovery_binary64 (b64_of_Z 1) b64_tenth)) = false /\
  b64_mul (b64_of_Z 1) b64_tenth =
    SpecFloat.S754_finite false 7205759403792794 (-56) /\
  b64_sub (b64_of_Z 1) (recovery_binary64 (b64_of_Z 1) b64_tenth) =
    SpecFloat.S754_finite false 7205759403792792 (-56).
Proof. vm_compute. repeat split. Qed.

(** ** The survivorship path leaves the unit interval *)

(** C5: rates within [0,1] do not keep the survivorship within [0,1].
    After a full prepayment ([smmV = [1.0]]) the unguarded division of line
    108 is zero over zero and the survivorship is NaN, where the safe
    division would give 0; and with [smmV = [0.6]], [mdrV = [0.6]] the
    monthly factor [1 - smm - refund_smm - mdr] is negative and so is the
    survivorship.  Both inputs pass every condition of the data model. *)
Theorem survivorship_leaves_unit_interval :
  (invalid_input loan_1m scenario_full_prepay = false /\
   wp (getCashflow_locals loan_1m scenario_full_prepay)
      (fun env => survivorshipV env = [Fin 1; NaN]) /\
   is_ok (getCashflow loan_1m scenario_full_prepay) = true) /\
  (invalid_input loan_1m scenario_heavy_hazard = false /\
   wp (getCashflow_locals loan_1m scenario_heavy_hazard)
      (fun env => exists q, survivorshipV env = [Fin 1; Fin q] /\ (q < 0)%Q) /\
   is_ok (getCashflow loan_1m scenario_heavy_hazard) = true).
Proof.
  split; (split; [vm_compute; reflexivity | split; [|vm_compute; reflexivity]]).
  - vm_compute. reflexivity.
  - vm_compute. eexists. split; [reflexivity | reflexivity].
Qed.

(** * Further properties of the code *)

(** ** shift_elements *)

Lemma nth_repeat_lt (x d : float) n i : (i < n)%nat -> nth i (repeat x n) d = x.
Proof.
  revert i; induction n as [|n IH]; intros [|i] H; simpl; try lia; auto.
  apply IH; lia.
Qed.

Lemma nth_firstn_lt (l : list float) n i d :
  (i < n)%nat -> nth i (firstn n l) d = nth i l d.
Proof.
  revert n i; induction l as [|x l IH]; intros [|n] [|i] H; simpl; try lia; auto.
  apply IH; lia.
Qed.

Lemma nth_skipn_add (l : list float) n i d : nth i (skipn n l) d = nth (n + i) l d.
Proof.
  revert n; induction l as [|x l IH]; intros [|n]; simpl; auto.
  now destruct i.
Qed.

Lemma shift_right_nth arr k fill i d :
  (i < length arr)%nat ->
  nth i (shift_elements arr (Z.of_nat k) fill) d =
    (if (i <? k)%nat then fill else nth (i - k) arr d).
Proof.
  intros Hi. unfold shift_elements.
  destruct (Z.ltb_spec 0 (Z.of_nat k)) as [Hk|Hk].
  - rewrite Nat2Z.id.
    destruct (Nat.ltb_spec i k) as [H|H].
    + rewrite app_nth1 by (rewrite repeat_length; lia).
      apply nth_repeat_lt; lia.
    + rewrite app_nth2 by (rewrite repeat_length; lia).
      rewrite repeat_length.
      replace (Nat.min k (length arr)) with k by lia.
      apply nth_firstn_lt; lia.
  - assert (k = O) by lia; subst k. simpl.
    now rewrite Nat.sub_0_r.
Qed.

Lemma shift_left_nth arr k fill i d :
  (i < length arr)%nat ->
  nth i (shift_elements arr (- Z.of_nat k) fill) d =
    (if (i + k <? length arr)%nat then nth (i + k) arr d else fill).
Proof.
  intros Hi. unfold shift_elements.
  destruct k as [|k].
  - simpl. rewrite Nat.add_0_r.
    destruct (Nat.ltb_spec i (length arr)); [reflexivity | lia].
  - destruct (Z.ltb_spec 0 (- Z.of_nat (S k))) as [Hk|Hk]; [lia|].
    destruct (Z.ltb_spec (- Z.of_nat (S k)) 0) as [Hk'|Hk']; [|lia].
    replace (Z.to_nat (- - Z.of_nat (S k))) with (S k) by lia.
    destruct (Nat.ltb_spec (i + S k) (length arr)) as [H|H].
    + rewrite app_nth1 by (rewrite length_skipn; lia).
      rewrite nth_skipn_add. f_equal; lia.
    + rewrite app_nth2 by (rewrite length_skipn; lia).
      apply nth_repeat_lt. rewrite length_skipn. lia.
Qed.

(** A shift to the right by [k >= 0] moves entry [i] to place [i + k] and
    fills the first [k] places; a shift to the left by [k] moves entry
    [i + k] to place [i] and fills the last [k] places.  Entries pushed
    over either end are dropped. *)
Theorem shift_elements_nth arr k fill i d :
  (i < length arr)%nat ->
  nth i (shift_elements arr (Z.of_nat k) fill) d =
    (if (i <? k)%nat then fill else nth (i - k) arr d) /\
  nth i (shift_elements arr (- Z.of_nat k) fill) d =
    (if (i + k <? length arr)%nat then nth (i + k) arr d else fill).
Proof.
  intros Hi. split; [now apply shift_right_nth | now apply shift_left_nth].
Qed.

Lemma shift_elements_nth_witness :
  (1 < length [Fin 1; Fin 2; Fin 3])%nat /\
  nth 1 (shift_elements [Fin 1; Fin 2; Fin 3] (Z.of_nat 1) (Fin 0)) NaN = Fin 1 /\
  nth 1 (shift_elements [Fin 1; Fin 2; Fin 3] (- Z.of_nat 1) (Fin 0)) NaN = Fin 3.
Proof.
  assert (H : (1 < length [Fin 1; Fin 2; Fin 3])%nat) by (simpl; lia).
  split; [exact H|].
  exact (shift_elements_nth [Fin 1; Fin 2; Fin 3] 1 (Fin 0) NaN H).
Defined.

(** Two shifts to the right with one fill value are one shift by the sum. *)
Theorem shift_elements_compose arr a b fill :
  (0 <= a)%Z -> (0 <= b)%Z ->
  shift_elements (shift_elements arr a fill) b fill =
  shift_elements arr (a + b) fill.
Proof.
  intros Ha Hb.
  apply nth_ext with (d := NaN) (d' := NaN).
  - now rewrite !length_shift_elements.
  - intros i Hi. rewrite !length_shift_elements in Hi.
    rewrite <- (Z2Nat.id a), <- (Z2Nat.id b) by lia.
    rewrite <- Nat2Z.inj_add.
    set (ka := Z.to_nat a). set (kb := Z.to_nat b).
    rewrite shift_right_nth by (now rewrite length_shift_elements).
    rewrite (shift_right_nth arr (ka + kb)) by exact Hi.
    destruct (Nat.ltb_spec i kb) as [H1|H1].
    + destruct (Nat.ltb_spec i (ka + kb)); [reflexivity | lia].
    + rewrite shift_right_nth by lia.
      destruct (Nat.ltb_spec (i - kb) ka), (Nat.ltb_spec i (ka + kb));
        try lia; auto.
      f_equal; lia.
Qed.

Lemma shift_elements_compose_witness :
  (0 <= 1)%Z /\ (0 <= 2)%Z /\
  shift_elements (shift_elements [Fin 1; Fin 2; Fin 3; Fin 4] 1 (Fin 0)) 2 (Fin 0) =
  shift_elements [Fin 1; Fin 2; Fin 3; Fin 4] (1 + 2) (Fin 0).
Proof.
  assert (H1 : (0 <= 1)%Z) by lia. assert (H2 : (0 <= 2)%Z) by lia.
  split; [exact H1 | split; [exact H2 |]].
  exact (shift_elements_compose [Fin 1; Fin 2; Fin 3; Fin 4] (Fin 0) H1 H2).
Defined.

(** Padding by the lag makes the shift lossless: a vector padded by [k]
    fill values, shifted right by [k] and shifted back, is the padded vector
    again; without the padding the last [k] entries are lost. *)
Theorem shift_elements_round_trip vec k fill :
  shift_elements
    (shift_elements (vec ++ repeat fill k) (Z.of_nat k) fill)
    (- Z.of_nat k) fill = vec ++ repeat fill k /\
  shift_elements (shift_elements vec (Z.of_nat k) fill) (- Z.of_nat k) fill =
    firstn (length vec - k) vec ++ repeat fill (Nat.min k (length vec)).
Proof.
  split.
  - apply nth_ext with (d := NaN) (d' := NaN).
    + now rewrite !length_shift_elements.
    + intros i Hi. rewrite !length_shift_elements in Hi.
      rewrite shift_left_nth by (now rewrite length_shift_elements).
      rewrite length_shift_elements.
      rewrite length_app, repeat_length in Hi.
      destruct (Nat.ltb_spec (i + k) (length (vec ++ repeat fill k))) as [H|H];
        rewrite length_app, repeat_length in H.
      * rewrite shift_right_nth by (rewrite length_app, repeat_length; lia).
        destruct (Nat.ltb_spec (i + k) k); [lia|].
        f_equal; lia.
      * rewrite app_nth2 by lia. symmetry. apply nth_repeat_lt. lia.
  - apply nth_ext with (d := NaN) (d' := NaN).
    + rewrite !length_shift_elements, length_app, length_firstn, repeat_length. lia.
    + intros i Hi. rewrite !length_shift_elements in Hi.
      rewrite shift_left_nth by (now rewrite length_shift_elements).
      rewrite length_shift_elements.
      destruct (Nat.ltb_spec (i + k) (length vec)) as [H|H].
      * rewrite shift_right_nth by exact H.
        destruct (Nat.ltb_spec (i + k) k); [lia|].
        rewrite app_nth1 by (rewrite length_firstn; lia).
        rewrite nth_firstn_lt by lia. f_equal; lia.
      * rewrite app_nth2 by (rewrite length_firstn; lia).
        symmetry. apply nth_repeat_lt. rewrite length_firstn. lia.
Qed.

(** ** pad_zeros *)

(** Padding with a value never raises and never truncates: the result has
    [max(len(vec), n)] entries, begins with [vec], and every entry after
    it is the pad value. *)
Theorem pad_zeros_value vec n x :
  exists r,
    pad_zeros vec n (PadWith x) = Ok r /\
    Z.of_nat (length r) = Z.max (Z.of_nat (length vec)) n /\
    firstn (length vec) r = vec /\
    (forall i d, (length vec <= i < length r)%nat -> nth i r d = x).
Proof.
  exists (padded vec n x). split; [apply pad_zeros_with|].
  split; [apply length_padded|]. unfold padded. split.
  - rewrite firstn_app, Nat.sub_diag, firstn_all. simpl. apply app_nil_r.
  - intros i d Hi. rewrite length_app, repeat_length in Hi.
    rewrite app_nth2 by lia. apply nth_repeat_lt. lia.
Qed.

(** Padding with ['last'] raises [IndexError] exactly on an empty vector
    that has to be padded; an empty vector with [n <= 0] is returned as it
    is, and a non-empty vector is padded with its last entry. *)
Theorem pad_zeros_last_cases vec n :
  (vec = [] -> (0 < n)%Z -> pad_zeros vec n PadLast = Err IndexError) /\
  (vec = [] -> (n <= 0)%Z -> pad_zeros vec n PadLast = Ok []) /\
  (vec <> [] ->
   pad_zeros vec n PadLast =
     Ok (vec ++ repeat (last vec NaN) (Z.to_nat (n - Z.of_nat (length vec))))).
Proof.
  repeat split.
  - intros -> Hn. unfold pad_zeros. simpl.
    destruct (Z.ltb_spec 0 n); [reflexivity | lia].
  - intros -> Hn. unfold pad_zeros. simpl.
    destruct (Z.ltb_spec 0 n); [lia | reflexivity].
  - intros Hne. now apply pad_zeros_last.
Qed.

Lemma pad_zeros_last_cases_witness :
  pad_zeros [] 2 PadLast = Err IndexError /\
  pad_zeros [] 0 PadLast = Ok [] /\
  pad_zeros [Fin 1; Fin 2] 4 PadLast = Ok ([Fin 1; Fin 2] ++ repeat (Fin 2) 2).
Proof.
  split; [|split].
  - apply (proj1 (pad_zeros_last_cases [] 2)); [reflexivity | lia].
  - apply (proj1 (proj2 (pad_zeros_last_cases [] 0))); [reflexivity | lia].
  - apply (proj2 (proj2 (pad_zeros_last_cases [Fin 1; Fin 2] 4))). discriminate.
Defined.

(** A vector that already has [n] entries or more is returned unchanged,
    whatever the pad value; so padding twice is padding once. *)
Theorem pad_zeros_idempotent vec n p r :
  pad_zeros vec n p = Ok r ->
  pad_zeros r n p = Ok r /\
  ((n <= Z.of_nat (length vec))%Z -> r = vec).
Proof.
  unfold pad_zeros at 1.
  destruct (Z.ltb_spec (Z.of_nat (length vec)) n) as [H|H].
  - intros E. apply bind_ok_inv in E. destruct E as (x & _ & E).
    inversion E; subst r. split; [|lia].
    unfold pad_zeros.
    destruct (Z.ltb_spec
                (Z.of_nat (length (vec ++ repeat x (Z.to_nat (n - Z.of_nat (length vec))))))
                n) as [H'|H']; [|reflexivity].
    rewrite length_app, repeat_length in H'. lia.
  - intros E; inversion E; subst r. split; [|reflexivity].
    unfold pad_zeros.
    destruct (Z.ltb_spec (Z.of_nat (length vec)) n); [lia | reflexivity].
Qed.

Lemma pad_zeros_idempotent_witness :
  pad_zeros [Fin 5] 3 PadLast = Ok [Fin 5; Fin 5; Fin 5] /\
  pad_zeros [Fin 5; Fin 5; Fin 5] 3 PadLast = Ok [Fin 5; Fin 5; Fin 5].
Proof.
  assert (E : pad_zeros [Fin 5] 3 PadLast = Ok [Fin 5; Fin 5; Fin 5]) by reflexivity.
  split; [exact E|].
  exact (proj1 (pad_zeros_idempotent [Fin 5] 3 PadLast E)).
Defined.

(** ** safedivide on non-finite operands *)

(** The guard is a test of closeness to zero only: a NaN divisor gives NaN,
    and an infinite divisor under a finite numerator gives 0. *)
Theorem safedivide_nonfinite_divisor (a : float) (x : Q) :
  safedivide a NaN = NaN /\
  safedivide (Fin x) PInf = Fin 0 /\
  safedivide (Fin x) NInf = Fin 0 /\
  safedivide NaN (Fin 0) = Fin 0.
Proof.
  repeat split. unfold safedivide. simpl. now destruct a.
Qed.

(** ** calc: the weighted-average life *)

Lemma fmaximum_0_idempotent x :
  fmaximum (Fin 0) (fmaximum (Fin 0) x) = fmaximum (Fin 0) x.
Proof.
  destruct x as [q| | |]; simpl; auto.
  destruct (Qle_bool 0 q) eqn:E; simpl; [now rewrite E | reflexivity].
Qed.

(** Negative cash flows do not count: the weighted-average life of a vector
    is that of its positive part. *)
Theorem calc_ignores_negative v : calc (maximum (Fin 0) v) = calc v.
Proof.
  unfold calc. rewrite length_maximum.
  assert (E : maximum (Fin 0) (maximum (Fin 0) v) = maximum (Fin 0) v).
  { unfold maximum. rewrite map_map. apply map_ext.
    intros x. apply fmaximum_0_idempotent. }
  now rewrite E.
Qed.

Lemma sum_of_zeros l a :
  Forall (fun x => exists z, x = Fin z /\ (z == 0)%Q) l ->
  exists s, fold_left fadd l (Fin a) = Fin s /\ (s == a)%Q.
Proof.
  intros H; revert a; induction H as [|x l (z & -> & Hz) _ IH]; intros a; simpl.
  - exists a; split; reflexivity.
  - destruct (IH (a + z)%Q) as (s & E & Hs).
    exists s; split; auto. rewrite Hs, Hz. ring.
Qed.

(** With no positive entry (every entry finite and at most 0, or minus
    infinity; the empty vector included) the weighted-average life is 0:
    the zero denominator is caught by [safedivide]. *)
Theorem calc_no_positive_flow v :
  Forall (fun x => fle0 x = true) v -> calc v = Fin 0.
Proof.
  intros H. unfold calc. cbv zeta.
  assert (Hz : Forall (fun x => exists z, x = Fin z /\ (z == 0)%Q)
                 (maximum (Fin 0) v)).
  { unfold maximum. apply Forall_map. revert H. apply Forall_impl.
    intros [q| | |] Hq; simpl in *; try discriminate.
    - destruct (Qle_bool 0 q) eqn:E.
      + exists q; split; auto.
        apply Qle_bool_iff in Hq, E. now apply Qle_antisym.
      + exists 0%Q; split; reflexivity.
    - exists 0%Q; split; reflexivity. }
  destruct (sum_of_zeros 0 Hz) as (s & E & Hs).
  unfold sum at 2. rewrite E. unfold safedivide.
  replace (isclose0 (Fin s) atol_safedivide) with true; [reflexivity|].
  symmetry. apply isclose0_near_zero. simpl. rewrite Hs. now compute.
Qed.

Lemma calc_no_positive_flow_witness :
  Forall (fun x => fle0 x = true) [Fin (-3); Fin 0; NInf] /\
  calc [Fin (-3); Fin 0; NInf] = Fin 0.
Proof.
  assert (H : Forall (fun x => fle0 x = true) [Fin (-3); Fin 0; NInf])
    by (repeat constructor).
  split; [exact H | exact (calc_no_positive_flow H)].
Defined.

(** ** Writedown and default in the table *)

Lemma nth_padded_lt vec n x i d :
  (i < length vec)%nat -> nth i (padded vec n x) d = nth i vec d.
Proof. intros H. unfold padded. now rewrite app_nth1. Qed.

Lemma nth_padded_ge vec n x i d :
  (length vec <= i)%nat -> (Z.of_nat i < n)%Z -> nth i (padded vec n x) d = x.
Proof.
  intros H1 H2. unfold padded. rewrite app_nth2 by lia.
  apply nth_repeat_lt. lia.
Qed.

Lemma getCashflow_ok_nonneg loan sc :
  shape_ok loan sc -> wac_nonneg loan ->
  exists env,
    getCashflow_locals loan sc = Ok env /\
    locals_spec loan sc env /\
    getCashflow loan sc = Ok (table env).
Proof.
  intros Hs Hw. apply getCashflow_ok; [exact Hs|].
  exact (wac_nonneg_power (shape_ok_wam Hs) Hw).
Qed.

(** A default of month [t] is written down [recovery_lag] months later:
    the Writedown column is 0 in the first [recovery_lag] months and the
    Default column of [recovery_lag] months before from then on. *)
Theorem writedown_is_lagged_default loan sc :
  shape_ok loan sc -> wac_nonneg loan ->
  exists df,
    getCashflow loan sc = Ok df /\
    forall t, (Z.of_nat t < wam loan + recovery_lag sc)%Z ->
      nth t (Writedown df) NaN =
        if (Z.of_nat t <? recovery_lag sc)%Z then Fin 0
        else nth (t - Z.to_nat (recovery_lag sc)) (Default df) NaN.
Proof.
  intros Hs Hw.
  destruct (getCashflow_ok_nonneg Hs Hw) as (env & _ & Hspec & Hdf).
  exists (table env). split; [exact Hdf|].
  intros t Ht. rewrite (spec_Writedown Hspec).
  destruct Hs as (Hwam & Hlag & _).
  destruct (spec_height Hspec) as (_ & Hc & _).
  unfold columns in Hc.
  repeat match goal with H : Forall _ (_ :: _) |- _ => inversion_clear H end.
  rewrite <- (Z2Nat.id (recovery_lag sc)) at 1 by lia.
  rewrite shift_right_nth by lia.
  destruct (Nat.ltb_spec t (Z.to_nat (recovery_lag sc))),
           (Z.ltb_spec (Z.of_nat t) (recovery_lag sc)); try lia; reflexivity.
Qed.

Lemma writedown_is_lagged_default_witness :
  shape_ok loan_2m scenario_stressed /\ wac_nonneg loan_2m /\
  exists df,
    getCashflow loan_2m scenario_stressed = Ok df /\
    forall t, (Z.of_nat t < wam loan_2m + recovery_lag scenario_stressed)%Z ->
      nth t (Writedown df) NaN =
        if (Z.of_nat t <? recovery_lag scenario_stressed)%Z then Fin 0
        else nth (t - Z.to_nat (recovery_lag scenario_stressed)) (Default df) NaN.
Proof.
  split; [exact shape_ok_stressed | split; [now apply wac_nonneg_6pct |]].
  exact (writedown_is_lagged_default shape_ok_stressed
           (wac_nonneg_6pct loan_2m eq_refl)).
Defined.

(** In that table the default of 306 of month 1 is written down in
    month 2, and the default of month 2 in month 3. *)
Example lagged_writedown :
  wp (getCashflow loan_2m scenario_stressed)
     (fun df =>
        map fred (Default df) = [Fin 306; Fin (76569 # 802); Fin 0] /\
        map fred (Writedown df) = [Fin 0; Fin 306; Fin (76569 # 802)]).
Proof. vm_compute. repeat split. Qed.

(** ** How the columns are built *)

Lemma getCashflow_locals_flows loan sc :
  shape_ok loan sc -> power_defined loan ->
  wp (getCashflow_locals loan sc)
     (fun env => exists a d s p r i, flows_spec loan sc env a d s p r i).
Proof.
  intros (Hwam & Hlag & Hsmm & Hdq & Hmdr & Hsev & Hrefund & Htiming) Hbase.
  apply py_pow_defined in Hbase.
  destruct (Z_of_nat_complete (wam loan)) as [n Hn]; [lia|].
  destruct (Z_of_nat_complete (recovery_lag sc)) as [k Hk]; [lia|].
  unfold getCashflow_locals. cbv zeta.
  rewrite Hn, Hk in *. rewrite Nat2Z.id in Hrefund, Htiming.
  apply Nat2Z.inj in Hsmm, Hdq, Hmdr, Hsev.
  wp_step. wp_step.
  apply wp_bind. rewrite Hbase. apply wp_ok.
  repeat wp_step.
  all: repeat wp_step.
  all: apply wp_ok; do 6 eexists; split;
    cbn [balancesV survivorshipV table Prin SchedPrin PrepayPrin RefundPrin
         Default Recovery Interest BeginningBalance Balance CFL];
    rewrite ?Hn, ?Hk, ?Nat2Z.id.
  all: try (lazymatch goal with |- @eq (list float) _ _ => eassumption end).
  all: try (lazymatch goal with
            | |- @eq (list float) _ (padded (zip_with fadd ?p ?r0) _ _) =>
                match goal with
                | E : _ = zip_with fadd ?p0 r0 |- _ => unify p p0
                end
            end).
  all: try congruence.
  all: try assumption.
Qed.

Lemma getCashflow_flows loan sc :
  shape_ok loan sc -> wac_nonneg loan ->
  exists env a d s p r i,
    getCashflow_locals loan sc = Ok env /\
    getCashflow loan sc = Ok (table env) /\
    locals_spec loan sc env /\
    flows_spec loan sc env a d s p r i.
Proof.
  intros Hs Hw.
  pose proof (wac_nonneg_power (shape_ok_wam Hs) Hw) as Hb.
  destruct (getCashflow_ok Hs Hb) as (env & E & Hspec & Hdf).
  pose proof (getCashflow_locals_flows Hs Hb) as Hf.
  rewrite E in Hf. simpl in Hf.
  destruct Hf as (a & d & s & p & r & i & Hf).
  exists env, a, d, s, p, r, i. auto.
Qed.

(** The rows of the table, as a number. *)
Lemma table_rows loan sc env :
  shape_ok loan sc -> locals_spec loan sc env ->
  Forall (fun c => length c = Z.to_nat (wam loan + recovery_lag sc))
         (columns (table env)).
Proof. intros _ Hspec. now destruct (spec_height Hspec) as (_ & Hc & _). Qed.

(** Each month's cash flow is its total principal plus its interest; the
    servicing fee is not deducted in the table. *)
Theorem cash_flow_is_principal_plus_interest loan sc :
  shape_ok loan sc -> wac_nonneg loan ->
  exists df,
    getCashflow loan sc = Ok df /\
    forall t, (Z.of_nat t < wam loan + recovery_lag sc)%Z ->
      nth t (CFL df) NaN = (nth t (Prin df) NaN + nth t (Interest df) NaN)%float.
Proof.
  intros Hs Hw.
  destruct (getCashflow_flows Hs Hw) as (env & a & d & s & p & r & i & _ & Hdf & Hspec & Hf).
  exists (table env). split; [exact Hdf|].
  intros t Ht. rewrite (flow_CFL Hf).
  pose proof (table_rows Hs Hspec) as Hc. unfold columns in Hc.
  repeat match goal with H : Forall _ (_ :: _) |- _ => inversion_clear H end.
  apply nth_zip_with; lia.
Qed.

Lemma cash_flow_is_principal_plus_interest_witness :
  shape_ok loan_2m scenario_stressed /\ wac_nonneg loan_2m /\
  exists df,
    getCashflow loan_2m scenario_stressed = Ok df /\
    forall t, (Z.of_nat t < wam loan_2m + recovery_lag scenario_stressed)%Z ->
      nth t (CFL df) NaN = (nth t (Prin df) NaN + nth t (Interest df) NaN)%float.
Proof.
  split; [exact shape_ok_stressed | split; [now apply wac_nonneg_6pct |]].
  exact (cash_flow_is_principal_plus_interest shape_ok_stressed
           (wac_nonneg_6pct loan_2m eq_refl)).
Defined.

(** The ending balance of a month is the beginning balance of the next,
    over the [wam] months of the loan. *)
Theorem balance_rolls_forward loan sc :
  shape_ok loan sc -> wac_nonneg loan ->
  exists df,
    getCashflow loan sc = Ok df /\
    forall t, (Z.of_nat (t + 1) < wam loan)%Z ->
      nth t (Balance df) NaN = nth (t + 1) (BeginningBalance df) NaN.
Proof.
  intros Hs Hw.
  destruct (getCashflow_flows Hs Hw) as (env & a & d & s & p & r & i & _ & Hdf & Hspec & Hf).
  exists (table env). split; [exact Hdf|].
  intros t Ht. rewrite (flow_Balance Hf), (flow_BeginningBalance Hf).
  pose proof (flow_length_actualBalanceV0 Hf) as Ha.
  rewrite !nth_padded_lt by (rewrite ?length_from1, ?length_but_last; lia).
  unfold from1, but_last.
  destruct a as [|x a]; [simpl in Ha; lia|]. simpl tl.
  assert (Hne : a <> []) by (intros ->; simpl in Ha; lia).
  rewrite (app_removelast_last NaN Hne) at 1.
  change (x :: a) with ([x] ++ a).
  rewrite removelast_app by exact Hne.
  simpl in Ha.
  assert (Hl : length (removelast a) = (length a - 1)%nat)
    by apply length_but_last.
  rewrite app_nth1 by lia.
  replace (t + 1)%nat with (S t) by lia. reflexivity.
Qed.

Lemma balance_rolls_forward_witness :
  shape_ok loan_2m scenario_stressed /\ wac_nonneg loan_2m /\
  exists df,
    getCashflow loan_2m scenario_stressed = Ok df /\
    forall t, (Z.of_nat (t + 1) < wam loan_2m)%Z ->
      nth t (Balance df) NaN = nth (t + 1) (BeginningBalance df) NaN.
Proof.
  split; [exact shape_ok_stressed | split; [now apply wac_nonneg_6pct |]].
  exact (balance_rolls_forward shape_ok_stressed
           (wac_nonneg_6pct loan_2m eq_refl)).
Defined.

Lemma shift_padded d k :
  shift_elements (d ++ repeat (Fin 0) k) (Z.of_nat k) (Fin 0) =
  repeat (Fin 0) k ++ d.
Proof.
  unfold shift_elements.
  destruct (Z.ltb_spec 0 (Z.of_nat k)) as [H|H].
  - rewrite Nat2Z.id, length_app, repeat_length.
    replace (Nat.min k (length d + k)) with k by lia.
    replace (length d + k - k)%nat with (length d + 0)%nat by lia.
    now rewrite firstn_app_2, firstn_O, app_nil_r.
  - assert (k = O) by lia; subst k. simpl. now rewrite app_nil_r.
Qed.

(** Every default is written down within the extended horizon: the
    Default column is the defaults of the [wam] months of the loan followed
    by [recovery_lag] zeros, and the Writedown column is [recovery_lag]
    zeros followed by the same defaults, so the shift drops none of them. *)
Theorem defaults_written_down_in_full loan sc :
  shape_ok loan sc -> wac_nonneg loan ->
  exists df defaults,
    getCashflow loan sc = Ok df /\
    length defaults = Z.to_nat (wam loan) /\
    Default df = defaults ++ repeat (Fin 0) (Z.to_nat (recovery_lag sc)) /\
    Writedown df = repeat (Fin 0) (Z.to_nat (recovery_lag sc)) ++ defaults.
Proof.
  intros Hs Hw.
  destruct (getCashflow_flows Hs Hw) as (env & a & d & s & p & r & i & _ & Hdf & Hspec & Hf).
  exists (table env), d. split; [exact Hdf|].
  pose proof (flow_length_defaultV Hf) as Hd. split; [exact Hd|].
  destruct Hs as (Hwam & Hlag & _).
  assert (E : Default (table env) =
              d ++ repeat (Fin 0) (Z.to_nat (recovery_lag sc))).
  { rewrite (flow_Default Hf). unfold padded. do 2 f_equal. lia. }
  split; [exact E|].
  rewrite (spec_Writedown Hspec), E.
  rewrite <- (Z2Nat.id (recovery_lag sc)) at 2 by lia.
  apply shift_padded.
Qed.

Lemma defaults_written_down_in_full_witness :
  shape_ok loan_2m scenario_stressed /\ wac_nonneg loan_2m /\
  exists df defaults,
    getCashflow loan_2m scenario_stressed = Ok df /\
    length defaults = Z.to_nat (wam loan_2m) /\
    Default df = defaults ++ repeat (Fin 0) (Z.to_nat (recovery_lag scenario_stressed)) /\
    Writedown df = repeat (Fin 0) (Z.to_nat (recovery_lag scenario_stressed)) ++ defaults.
Proof.
  split; [exact shape_ok_stressed | split; [now apply wac_nonneg_6pct |]].
  exact (defaults_written_down_in_full shape_ok_stressed
           (wac_nonneg_6pct loan_2m eq_refl)).
Defined.

(** The total principal of a month is built from the prepayment before the
    refund is added to it (line 135 comes before line 138): it is scheduled
    principal plus that prepayment plus recovery, while the Prepay column
    shows that prepayment plus the refunded principal.  Past the term the
    prepayment, the Prepay column and the refund are 0. *)
Theorem principal_excludes_refund loan sc :
  shape_ok loan sc -> wac_nonneg loan ->
  exists df prepay,
    getCashflow loan sc = Ok df /\
    length prepay = Z.to_nat (wam loan + recovery_lag sc) /\
    forall t, (Z.of_nat t < wam loan + recovery_lag sc)%Z ->
      nth t (Prin df) NaN =
        ((nth t (SchedPrin df) NaN + nth t prepay NaN)
         + nth t (Recovery df) NaN)%float /\
      ((Z.of_nat t < wam loan)%Z ->
       nth t (PrepayPrin df) NaN =
         (nth t prepay NaN + nth t (RefundPrin df) NaN)%float) /\
      ((wam loan <= Z.of_nat t)%Z ->
       nth t prepay NaN = Fin 0 /\ nth t (PrepayPrin df) NaN = Fin 0 /\
       nth t (RefundPrin df) NaN = Fin 0).
Proof.
  intros Hs Hw.
  destruct (getCashflow_flows Hs Hw)
    as (env & bal & d & s & p & r & i & _ & Hdf & Hspec & Hf).
  exists (table env), (padded p (wam loan + recovery_lag sc) (Fin 0)).
  split; [exact Hdf|].
  destruct Hs as (Hwam & Hlag & _).
  pose proof (flow_length_schedPrinV Hf) as Ls.
  pose proof (flow_length_prepayPrinV0 Hf) as Lp.
  pose proof (flow_length_refundPrinV Hf) as Lr.
  assert (Lps : length (padded s (wam loan + recovery_lag sc) (Fin 0)) =
                Z.to_nat (wam loan + recovery_lag sc))
    by (pose proof (length_padded s (wam loan + recovery_lag sc) (Fin 0)); lia).
  assert (Lpp : length (padded p (wam loan + recovery_lag sc) (Fin 0)) =
                Z.to_nat (wam loan + recovery_lag sc))
    by (pose proof (length_padded p (wam loan + recovery_lag sc) (Fin 0)); lia).
  split; [exact Lpp|].
  intros t Ht.
  assert (Hc : Forall (fun c => length c = Z.to_nat (wam loan + recovery_lag sc))
                 (columns (table env)))
    by now destruct (spec_height Hspec) as (_ & Hc & _).
  unfold columns in Hc.
  repeat match goal with H : Forall _ (_ :: _) |- _ => inversion_clear H end.
  split; [|split].
  - rewrite (flow_Prin Hf).
    rewrite nth_zip_with by (rewrite ?length_zip_with; lia).
    rewrite nth_zip_with by lia.
    now rewrite (flow_SchedPrin Hf).
  - intros Hlt.
    rewrite (flow_PrepayPrin Hf), (flow_RefundPrin Hf).
    rewrite !nth_padded_lt by (rewrite ?length_zip_with; lia).
    apply nth_zip_with; lia.
  - intros Hge.
    rewrite (flow_PrepayPrin Hf), (flow_RefundPrin Hf).
    rewrite !nth_padded_ge by (rewrite ?length_zip_with; lia).
    auto.
Qed.

Lemma principal_excludes_refund_witness :
  shape_ok loan_2m scenario_stressed /\ wac_nonneg loan_2m /\
  exists df prepay,
    getCashflow loan_2m scenario_stressed = Ok df /\
    length prepay = Z.to_nat (wam loan_2m + recovery_lag scenario_stressed) /\
    forall t, (Z.of_nat t < wam loan_2m + recovery_lag scenario_stressed)%Z ->
      nth t (Prin df) NaN =
        ((nth t (SchedPrin df) NaN + nth t prepay NaN)
         + nth t (Recovery df) NaN)%float /\
      ((Z.of_nat t < wam loan_2m)%Z ->
       nth t (PrepayPrin df) NaN =
         (nth t prepay NaN + nth t (RefundPrin df) NaN)%float) /\
      ((wam loan_2m <= Z.of_nat t)%Z ->
       nth t prepay NaN = Fin 0 /\ nth t (PrepayPrin df) NaN = Fin 0 /\
       nth t (RefundPrin df) NaN = Fin 0).
Proof.
  split; [exact shape_ok_stressed | split; [now apply wac_nonneg_6pct |]].
  exact (principal_excludes_refund shape_ok_stressed
           (wac_nonneg_6pct loan_2m eq_refl)).
Defined.

(** In the first month of that table the refund of 12060/401 is in the
    Prepay column and not in the total principal. *)
Example refund_not_in_principal :
  wp (getCashflow loan_2m scenario_stressed)
     (fun df =>
        fred (nth 0 (Prin df) NaN) = Fin (202920 # 401) /\
        fred (nth 0 (SchedPrin df) NaN + nth 0 (PrepayPrin df) NaN
              + nth 0 (Recovery df) NaN)%float = Fin (214980 # 401)).
Proof. vm_compute. repeat split. Qed.

(** ** Pricing adds no failure *)

(** [y2p] raises exactly when [getCashflow] does: the discounting and the
    final division never raise (a zero cost basis gives an infinity or NaN,
    not an exception). *)
Theorem y2p_fails_only_with_getCashflow loan sc (input : Input) :
  is_ok (y2p loan sc input) = is_ok (getCashflow loan sc).
Proof.
  destruct (getCashflow loan sc) as [df|e] eqn:E.
  - erewrite y2p_eq by exact E. reflexivity.
  - unfold y2p. cbv zeta. now rewrite E.
Qed.

(** ** Errors of getCashflow *)

Lemma broadcast_err f a b e : broadcast f a b = Err e -> e = ValueError.
Proof.
  unfold broadcast. destruct (Nat.eqb _ _); [discriminate|].
  destruct a as [|x [|x' a]], b as [|y [|y' b]]; intros H; inversion H; auto.
Qed.

Lemma py_pow_cases x k :
  (0 <= k)%Z ->
  py_pow x k = Ok (fpow x k) \/ py_pow x k = Err OverflowError.
Proof.
  intros Hk. unfold py_pow. destruct x as [q| | |]; auto.
  destruct k; try lia; destruct (Qsign q), (overflows _); auto.
Qed.

Lemma py_pow_nonneg_in_range x k :
  (0 <= k)%Z ->
  (forall q, x = Fin q -> (Qabs (q ^ k) <= in_range_bound)%Q) ->
  py_pow x k = Ok (fpow x k).
Proof.
  intros Hk Hb. destruct x as [q| | |]; try reflexivity.
  specialize (Hb q eq_refl). unfold py_pow.
  assert (O : overflows (fpow (Fin q) k) = false).
  { assert (E : fpow (Fin q) k = Fin (q ^ k)) by (destruct k; try lia; reflexivity).
    rewrite E. cbn [overflows].
    destruct (Qle_bool overflow_threshold (Qabs (q ^ k))) eqn:B; [|reflexivity].
    apply Qle_bool_iff in B. exfalso.
    apply (Qlt_irrefl overflow_threshold).
    eapply Qle_lt_trans; [exact B|].
    eapply Qle_lt_trans; [exact Hb | exact in_range_below_threshold]. }
  rewrite O. destruct k; try lia; reflexivity.
Qed.

(** A negative term never gives a table: [getCashflow] raises
    [ValueError], at the latest by [np.ones(wam)], unless the scalar power
    [(1 + rate) ** -wam], now of a positive exponent, raises
    [OverflowError] before; and it is [ValueError] whenever that power is
    in the float range. *)
Theorem negative_wam_raises loan sc :
  (wam loan < 0)%Z ->
  (getCashflow loan sc = Err ValueError \/
   getCashflow loan sc = Err OverflowError) /\
  ((forall q, (Fin 1 + wac loan / Fin 12)%float = Fin q ->
              (Qabs (q ^ (- wam loan)) <= in_range_bound)%Q) ->
   getCashflow loan sc = Err ValueError).
Proof.
  intros Hn.
  assert (Hok : py_pow (Fin 1 + wac loan / Fin 12)%float (- wam loan) =
                  Ok (fpow (Fin 1 + wac loan / Fin 12)%float (- wam loan)) ->
                getCashflow loan sc = Err ValueError).
  { intros P. unfold getCashflow, getCashflow_locals. cbv zeta.
    destruct (broadcast fadd (dqV sc) (mdrV sc)) as [dqMdrV|e] eqn:E.
    - cbn [bind]. rewrite P. cbn [bind].
      rewrite broadcast_same by len. cbn [bind].
      unfold ones, full. destruct (Z.ltb_spec (wam loan) 0); [reflexivity | lia].
    - apply broadcast_err in E. now subst e. }
  split.
  - destruct (py_pow_cases (Fin 1 + wac loan / Fin 12)%float (k := - wam loan))
      as [P|P]; [lia| |].
    + left. exact (Hok P).
    + unfold getCashflow, getCashflow_locals. cbv zeta.
      destruct (broadcast fadd (dqV sc) (mdrV sc)) as [dqMdrV|e] eqn:E.
      * right. cbn [bind]. now rewrite P.
      * left. apply broadcast_err in E. now subst e.
  - intros Hb. apply Hok. apply py_pow_nonneg_in_range; [lia | exact Hb].
Qed.

Lemma negative_wam_raises_witness :
  (wam (mkLoan (Fin (6 # 100)) (-3) (Fin 100)) < 0)%Z /\
  (forall q, (Fin 1 + wac (mkLoan (Fin (6 # 100)) (-3) (Fin 100)) / Fin 12)%float = Fin q ->
             (Qabs (q ^ (- wam (mkLoan (Fin (6 # 100)) (-3) (Fin 100)))) <= in_range_bound)%Q) /\
  getCashflow (mkLoan (Fin (6 # 100)) (-3) (Fin 100)) (zero_scenario 0) = Err ValueError.
Proof.
  assert (H : (wam (mkLoan (Fin (6 # 100)) (-3) (Fin 100)) < 0)%Z) by (simpl; lia).
  assert (Hb : forall q,
             (Fin 1 + wac (mkLoan (Fin (6 # 100)) (-3) (Fin 100)) / Fin 12)%float = Fin q ->
             (Qabs (q ^ (- wam (mkLoan (Fin (6 # 100)) (-3) (Fin 100)))) <= in_range_bound)%Q).
  { intros q E. injection E as <-. apply Qle_alt. vm_compute. discriminate. }
  split; [exact H | split; [exact Hb |]].
  exact (proj2 (negative_wam_raises _ (zero_scenario 0) H) Hb).
Defined.

(** A coupon of 1e105 with a term of -3 months: the power is out of range
    before [np.ones(wam)] is reached. *)
Example negative_wam_overflows :
  getCashflow (mkLoan (Fin (inject_Z (10 ^ 105))) (-3) (Fin 100)) (zero_scenario 0) =
    Err OverflowError.
Proof. vm_compute. reflexivity. Qed.

(** A coupon of -1200% makes [1 + wac/12] zero: the scalar power
    [(1 + rate) ** -wam] raises [ZeroDivisionError] for every positive
    term, once [dqV + mdrV] has passed. *)
Theorem zero_growth_factor_raises loan sc w :
  wac loan = Fin w -> (w == -12)%Q -> (0 < wam loan)%Z ->
  length (dqV sc) = length (mdrV sc) ->
  getCashflow loan sc = Err ZeroDivisionError.
Proof.
  intros Hw Hw12 Hn Hlen. unfold getCashflow, getCashflow_locals. cbv zeta.
  rewrite broadcast_same by exact Hlen. cbn [bind].
  rewrite Hw.
  assert (N : ~ (12 == 0)%Q) by (intros H; now compute in H).
  rewrite (fdiv_fin _ N).
  change (Fin 1 + Fin (w / 12))%float with (Fin (1 + w / 12)).
  assert (E : Qsign (1 + w / 12) = Eq).
  { apply Qsign_Eq. rewrite Hw12. reflexivity. }
  destruct (wam loan) as [|p|p] eqn:Ew; try lia.
  simpl py_pow. rewrite E. reflexivity.
Qed.

Lemma zero_growth_factor_raises_witness :
  wac (mkLoan (Fin (-12)) 1 (Fin 100)) = Fin (-12) /\
  (-12 == -12)%Q /\ (0 < wam (mkLoan (Fin (-12)) 1 (Fin 100)))%Z /\
  length (dqV (zero_scenario 1)) = length (mdrV (zero_scenario 1)) /\
  getCashflow (mkLoan (Fin (-12)) 1 (Fin 100)) (zero_scenario 1) = Err ZeroDivisionError.
Proof.
  assert (H1 : wac (mkLoan (Fin (-12)) 1 (Fin 100)) = Fin (-12)) by reflexivity.
  assert (H2 : (-12 == -12)%Q) by reflexivity.
  assert (H3 : (0 < wam (mkLoan (Fin (-12)) 1 (Fin 100)))%Z) by (simpl; lia).
  assert (H4 : length (dqV (zero_scenario 1)) = length (mdrV (zero_scenario 1)))
    by reflexivity.
  repeat (split; [assumption|]).
  exact (zero_growth_factor_raises _ (zero_scenario 1) H1 H2 H3 H4).
Defined.

(** Intermediate arrays under a negative lag: every padding is void, the
    lengths stay [n] or [n + 1]. *)
Ltac wp_intro_len_neg :=
  let v := fresh "v" in
  let Hv := fresh "Hv" in
  intros v _ Hv; cbv beta zeta; autorewrite with len in Hv;
  match goal with
  | Hn : wam _ = Z.of_nat ?n |- _ =>
      first [ assert (length v = n) by lia
            | assert (length v = S n) by lia ];
      clear Hv
  end.

Ltac wp_step_neg :=
  lazymatch goal with
  | |- wp (bind _ _) _ => apply wp_bind
  | |- wp (broadcast _ _ _) _ => apply wp_broadcast; [len | wp_intro_len_neg]
  | |- wp (broadcast_inplace _ _ _) _ =>
      apply wp_broadcast_inplace; [len | wp_intro_len_neg]
  | |- wp (arr_nd _ _ _) _ => apply wp_arr_nd; [nd_fits_tac | wp_intro_len_neg]
  | |- wp (nd_arr _ _ _) _ => apply wp_nd_arr; [nd_fits_tac | wp_intro_len_neg]
  | |- wp (ones _) _ => apply wp_full; [lia | wp_intro_len_neg]
  | |- wp (zeros _) _ => apply wp_full; [lia | wp_intro_len_neg]
  | |- wp (pad_zeros _ _ (PadWith _)) _ =>
      apply wp_pad_zeros_with; wp_intro_len_neg
  | |- wp (pad_zeros _ _ PadLast) _ =>
      apply wp_pad_zeros_last;
      [let E := fresh in intro E; rewrite E in *; simpl in *; lia
      | wp_intro_len_neg]
  | |- wp (if ?b then _ else _) _ => destruct b
  | |- wp (Ok _) (fun _ => _) => apply wp_ok; cbv beta zeta
  end.

Lemma getCashflow_locals_negative_lag loan sc :
  (recovery_lag sc < 0)%Z ->
  shape_ok loan (with_recovery_lag sc 0) -> power_defined loan ->
  wp (getCashflow_locals loan sc)
     (fun env =>
        length (Months (table env)) = Z.to_nat (wam loan + recovery_lag sc) /\
        length (Prin (table env)) = Z.to_nat (wam loan)).
Proof.
  intros Hneg (Hwam & _ & Hsmm & Hdq & Hmdr & Hsev & Hrefund & Htiming) Hbase.
  apply py_pow_defined in Hbase.
  cbn [with_recovery_lag smmV dqV mdrV sevV refund_smm aggMDR_timingV] in *.
  destruct (Z_of_nat_complete (wam loan)) as [n Hn]; [lia|].
  unfold getCashflow_locals. cbv zeta.
  rewrite Hn in *. rewrite Nat2Z.id in Hrefund, Htiming.
  apply Nat2Z.inj in Hsmm, Hdq, Hmdr, Hsev.
  wp_step_neg. wp_step_neg.
  apply wp_bind. rewrite Hbase. apply wp_ok.
  repeat wp_step_neg.
  all: repeat wp_step_neg.
  all: cbn [table Months Prin]; split; [len | lia].
Qed.

(** On a loan of the data model a negative recovery lag passes the whole
    computation and is refused only when the table is built: the Months
    column has [wam + lag] rows (none when that is negative), the other
    columns [wam], and pandas raises [ValueError]. *)
Theorem negative_lag_raises loan sc :
  (recovery_lag sc < 0)%Z ->
  shape_ok loan (with_recovery_lag sc 0) -> wac_nonneg loan ->
  is_ok (getCashflow_locals loan sc) = true /\
  getCashflow loan sc = Err ValueError.
Proof.
  intros Hneg Hs Hw.
  pose proof (wac_nonneg_power (shape_ok_wam Hs) Hw) as Hb.
  destruct (wp_elim _ _ (getCashflow_locals_negative_lag Hneg Hs Hb))
    as (env & E & HM & HP).
  split; [now rewrite E|].
  unfold getCashflow. rewrite E. cbn [bind].
  unfold make_DataFrame, same_length, columns. cbn [forallb].
  destruct Hs as (Hwam & _).
  replace (Nat.eqb (length (Prin (table env))) (length (Months (table env))))
    with false; [reflexivity|].
  symmetry. apply Nat.eqb_neq. lia.
Qed.

Lemma negative_lag_raises_witness :
  (recovery_lag (with_recovery_lag scenario_stressed (-1)) < 0)%Z /\
  shape_ok loan_2m (with_recovery_lag (with_recovery_lag scenario_stressed (-1)) 0) /\
  wac_nonneg loan_2m /\
  is_ok (getCashflow_locals loan_2m (with_recovery_lag scenario_stressed (-1))) = true /\
  getCashflow loan_2m (with_recovery_lag scenario_stressed (-1)) = Err ValueError.
Proof.
  assert (H1 : (recovery_lag (with_recovery_lag scenario_stressed (-1)) < 0)%Z)
    by (simpl; lia).
  assert (H2 : shape_ok loan_2m
                 (with_recovery_lag (with_recovery_lag scenario_stressed (-1)) 0))
    by (unfold shape_ok; simpl; repeat split; lia).
  assert (H3 : wac_nonneg loan_2m) by now apply wac_nonneg_6pct.
  split; [exact H1 | split; [exact H2 | split; [exact H3 |]]].
  exact (negative_lag_raises H1 H2 H3).
Defined.

(** ** Servicer advances *)

(** When the servicer advances ([is_advance]), the delinquency rates are
    read only by [dqV + mdrV], which is then not used: the table does not
    depend on their values. *)
Theorem advance_ignores_delinquency loan sc v :
  is_advance sc = true ->
  length v = length (mdrV sc) -> length (dqV sc) = length (mdrV sc) ->
  getCashflow loan (with_dqV sc v) = getCashflow loan sc.
Proof.
  intros Hadv Hv Hd. unfold getCashflow, getCashflow_locals.
  cbn [with_dqV smmV dqV mdrV sevV recovery_lag refund_smm
       refund_premium aggMDR aggMDR_timingV compIntHC servicing_fee is_advance
       servicing_fee_method].
  rewrite Hadv.
  rewrite (broadcast_same fadd v (mdrV sc) Hv).
  rewrite (broadcast_same fadd (dqV sc) (mdrV sc) Hd).
  reflexivity.
Qed.

Lemma advance_ignores_delinquency_witness :
  is_advance (with_is_advance (zero_scenario 1) true) = true /\
  length [Fin (1 # 2)] = length (mdrV (with_is_advance (zero_scenario 1) true)) /\
  length (dqV (with_is_advance (zero_scenario 1) true)) =
    length (mdrV (with_is_advance (zero_scenario 1) true)) /\
  getCashflow loan_1m (with_dqV (with_is_advance (zero_scenario 1) true) [Fin (1 # 2)]) =
  getCashflow loan_1m (with_is_advance (zero_scenario 1) true).
Proof.
  repeat (split; [reflexivity|]).
  exact (advance_ignores_delinquency loan_1m
           (with_is_advance (zero_scenario 1) true) [Fin (1 # 2)]
           eq_refl eq_refl eq_refl).
Defined.

(** Without advances the same change of the delinquency rate does change
    the table. *)
Example no_advance_reads_delinquency :
  getCashflow loan_1m (with_dqV (zero_scenario 1) [Fin (1 # 2)]) <>
  getCashflow loan_1m (zero_scenario 1).
Proof. vm_compute. discriminate. Qed.
